(** * Box3DMode.convert: conversion of 3D boxes between LiDAR, camera and depth
    coordinates (mmdet3d/structures/bbox_3d/box_3d_mode.py).

    Numbers are exact reals: [np.pi] is [PI], [torch.cos], [torch.sin] and
    [torch.atan2] are the real functions, and rounding of float32/float64 is
    not part of the model.  Tensors are two-dimensional (N rows of k
    fields), which is the rank [convert] works with ([rt_mat.size(1)],
    [arr.size(0)], [torch.cat(..., dim=1)]). *)

From Stdlib Require Import Reals Lra Lia List ZArith Bool Permutation Zfloor.
From Stdlib Require String Ascii.
Import ListNotations.
Local Open Scope R_scope.

(** ** Exceptions and results *)

(** The exceptions the function can end with.  [AssertionError] is the
    spec's MalformedBox, [NotImplementedError] its UnsupportedConversion;
    [RuntimeError] is torch's shape mismatch in [@], [IndexError] an index
    out of range in [t[:, [j]]]. *)
Inductive exn : Set :=
| AssertionError
| NotImplementedError
| RuntimeError
| IndexError.

Inductive result (A : Type) : Type :=
| Ok (a : A)
| Raise (e : exn).
Arguments Ok {A} a.
Arguments Raise {A} e.

Definition bind {A B : Type} (m : result A) (k : A -> result B) : result B :=
  match m with
  | Ok a => k a
  | Raise e => Raise e
  end.

Notation "x <- m ;; k" := (bind m (fun x => k))
  (at level 61, m at next level, right associativity).
Notation "' p <- m ;; k" := (bind m (fun x => let p := x in k))
  (at level 61, p pattern, m at next level, right associativity).

(** ** Tensors *)

(** A 2-D tensor with its shape; [data] holds [size0] rows of [size1]
    numbers each. *)
Record Tensor : Type := mkTensor {
  size0 : nat;
  size1 : nat;
  data : list (list R)
}.

Definition wf (t : Tensor) : Prop :=
  length (data t) = size0 t /\
  Forall (fun r => length r = size1 t) (data t).

(** [torch.tensor(box)[None, :]] for a flat sequence. *)
Definition of_row (l : list R) : Tensor :=
  mkTensor 1 (length l) [l].

(** [t[..., a:b]]: Python slices clamp to the width. *)
Definition slice_cols (a b : nat) (t : Tensor) : Tensor :=
  mkTensor (size0 t) (Nat.min b (size1 t) - Nat.min a (size1 t))
           (map (fun r => firstn (b - a) (skipn a r)) (data t)).

(** [t[..., a:]]. *)
Definition slice_from (a : nat) (t : Tensor) : Tensor :=
  mkTensor (size0 t) (size1 t - a) (map (skipn a) (data t)).

(** [t[:a, :b]]. *)
Definition slice_block (a b : nat) (t : Tensor) : Tensor :=
  mkTensor (Nat.min a (size0 t)) (Nat.min b (size1 t))
           (map (firstn b) (firstn a (data t))).

Fixpoint zip_app (xs ys : list (list R)) : list (list R) :=
  match xs, ys with
  | x :: xs', y :: ys' => (x ++ y) :: zip_app xs' ys'
  | _, _ => []
  end.

(** [torch.cat([a, b], dim=-1)] of two tensors with the same number of
    rows (every operand of a [cat] in [convert] has [arr.size(0)] rows). *)
Definition hcat (a b : Tensor) : Tensor :=
  mkTensor (size0 a) (size1 a + size1 b) (zip_app (data a) (data b)).

(** [torch.cat(ts, dim=-1)] with first operand [t]. *)
Definition cat (t : Tensor) (ts : list Tensor) : Tensor :=
  fold_left hcat ts t.

(** Elementwise operations. *)
Definition tmap (f : R -> R) (t : Tensor) : Tensor :=
  mkTensor (size0 t) (size1 t) (map (map f) (data t)).

Fixpoint zip_with (f : R -> R -> R) (u v : list R) : list R :=
  match u, v with
  | x :: u', y :: v' => f x y :: zip_with f u' v'
  | _, _ => []
  end.

Fixpoint zip_rows (f : R -> R -> R) (xs ys : list (list R)) : list (list R) :=
  match xs, ys with
  | x :: xs', y :: ys' => zip_with f x y :: zip_rows f xs' ys'
  | _, _ => []
  end.

Definition tmap2 (f : R -> R -> R) (a b : Tensor) : Tensor :=
  mkTensor (size0 a) (size1 a) (zip_rows f (data a) (data b)).

(** [arr.new_ones(n, 1)]. *)
Definition new_ones (n : nat) : Tensor :=
  mkTensor n 1 (repeat [1] n).

(** [torch.zeros_like(t)]. *)
Definition zeros_like (t : Tensor) : Tensor := tmap (fun _ => 0) t.

Definition columns (t : Tensor) : list (list R) :=
  map (fun j => map (fun r => nth j r 0) (data t)) (seq 0 (size1 t)).

(** [t.t()]. *)
Definition transpose (t : Tensor) : Tensor :=
  mkTensor (size1 t) (size0 t) (columns t).

Fixpoint dot (u v : list R) : R :=
  match u, v with
  | x :: u', y :: v' => x * y + dot u' v'
  | _, _ => 0
  end.

(** [a @ b]: the inner dimensions must agree. *)
Definition matmul (a b : Tensor) : result Tensor :=
  if Nat.eqb (size1 a) (size0 b)
  then Ok (mkTensor (size0 a) (size1 b)
                    (map (fun r => map (dot r) (columns b)) (data a)))
  else Raise RuntimeError.

(** [t[:, [j]]]. *)
Definition index_col (j : nat) (t : Tensor) : result Tensor :=
  if Nat.ltb j (size1 t)
  then Ok (mkTensor (size0 t) 1 (map (fun r => [nth j r 0]) (data t)))
  else Raise IndexError.

(** [arr.flatten().tolist()]. *)
Definition flatten (t : Tensor) : list R := concat (data t).

(** ** Angles *)

(** Modelled from the spec: [limit_period] of
    mmdet3d/structures/bbox_3d/utils.py, which is not among the sources.
    The spec: it wraps an angle into a canonical half-open interval of the
    given period, "subtracting the nearest multiple of the period", and for
    period 2*pi the interval is [[-pi, pi)]. *)
Definition limit_period (val period : R) : R :=
  val - IZR (Zfloor (val / period + 1 / 2)) * period.

(** [torch.atan2(y, x)], the angle of the point [(x, y)] in [(-pi, pi]]. *)
Definition atan2 (y x : R) : R :=
  if Rlt_dec 0 x then atan (y / x)
  else if Rlt_dec x 0 then
    if Rle_dec 0 y then atan (y / x) + PI else atan (y / x) - PI
  else if Rlt_dec 0 y then PI / 2
  else if Rlt_dec y 0 then - (PI / 2)
  else 0.

(** ** Box modes *)

(** [Box3DMode] is an [IntEnum]: a mode is its integer, and [==] compares
    integers, so an integer that is no member reaches the function too. *)
Definition Box3DMode : Set := Z.
Definition LIDAR : Box3DMode := 0%Z.
Definition CAM : Box3DMode := 1%Z.
Definition DEPTH : Box3DMode := 2%Z.

Definition mode_eq (a b : Box3DMode) : bool := Z.eqb a b.

(** The six directed conversions the function implements. *)
Definition supported (src dst : Box3DMode) : bool :=
  (mode_eq src LIDAR && mode_eq dst CAM) ||
  (mode_eq src CAM && mode_eq dst LIDAR) ||
  (mode_eq src DEPTH && mode_eq dst CAM) ||
  (mode_eq src CAM && mode_eq dst DEPTH) ||
  (mode_eq src LIDAR && mode_eq dst DEPTH) ||
  (mode_eq src DEPTH && mode_eq dst LIDAR).

(** [arr.new_tensor([[..],[..],[..]])] for a 3x3 literal. *)
Definition mat3 (r0 r1 r2 : list R) : Tensor := mkTensor 3 3 [r0; r1; r2].

(** [rt_mat] when the caller passed [None]. *)
Definition or_default (rt_mat : option Tensor) (d : Tensor) : Tensor :=
  match rt_mat with
  | Some m => m
  | None => d
  end.

(** [torch.cat([cos(yaw), sin(yaw), zeros_like(yaw)], dim=1)]. *)
Definition yaw_vector_z (yaw : Tensor) : Tensor :=
  cat (tmap cos yaw) [tmap sin yaw; zeros_like yaw].

(** [torch.cat([cos(-yaw), zeros_like(yaw), sin(-yaw)], dim=1)]. *)
Definition yaw_vector_y (yaw : Tensor) : Tensor :=
  cat (tmap cos (tmap Ropp yaw)) [zeros_like yaw; tmap sin (tmap Ropp yaw)].

(** What one branch of the [if src == ... and dst == ...] chain leaves
    behind: the matrix, the reordered sizes, the yaw so far, and the yaw
    vector when [with_yaw and correct_yaw]. *)
Record Branch : Type := mkBranch {
  br_rt_mat : Tensor;
  br_xyz_size : Tensor;
  br_yaw : Tensor;
  br_yaw_vector : option Tensor
}.

(** The yaw part of a branch: [vec] builds the yaw vector, [fixup] is the
    closed form applied when [correct_yaw] is false. *)
Definition branch_yaw (with_yaw correct_yaw : bool) (yaw : Tensor)
    (vec : Tensor -> Tensor) (fixup : Tensor -> Tensor)
  : Tensor * option Tensor :=
  if with_yaw then
    if correct_yaw then (yaw, Some (vec yaw)) else (fixup yaw, None)
  else (yaw, None).

Definition wrap (t : Tensor) : Tensor :=
  tmap (fun y => limit_period y (PI * 2)) t.

Definition select_branch (arr : Tensor) (src dst : Box3DMode)
    (rt_mat : option Tensor) (with_yaw correct_yaw : bool) : result Branch :=
  let x_size := slice_cols 3 4 arr in
  let y_size := slice_cols 4 5 arr in
  let z_size := slice_cols 5 6 arr in
  let yaw := slice_cols 6 7 arr in
  if mode_eq src LIDAR && mode_eq dst CAM then
    let rt := or_default rt_mat (mat3 [0; -1; 0] [0; 0; -1] [1; 0; 0]) in
    let xyz_size := cat x_size [z_size; y_size] in
    let '(yaw, v) := branch_yaw with_yaw correct_yaw yaw yaw_vector_z
                       (fun yaw => wrap (tmap (fun y => - y - PI / 2) yaw)) in
    Ok (mkBranch rt xyz_size yaw v)
  else if mode_eq src CAM && mode_eq dst LIDAR then
    let rt := or_default rt_mat (mat3 [0; 0; 1] [-1; 0; 0] [0; -1; 0]) in
    let xyz_size := cat x_size [z_size; y_size] in
    let '(yaw, v) := branch_yaw with_yaw correct_yaw yaw yaw_vector_y
                       (fun yaw => wrap (tmap (fun y => - y - PI / 2) yaw)) in
    Ok (mkBranch rt xyz_size yaw v)
  else if mode_eq src DEPTH && mode_eq dst CAM then
    let rt := or_default rt_mat (mat3 [1; 0; 0] [0; 0; -1] [0; 1; 0]) in
    let xyz_size := cat x_size [z_size; y_size] in
    let '(yaw, v) := branch_yaw with_yaw correct_yaw yaw yaw_vector_z
                       (fun yaw => tmap Ropp yaw) in
    Ok (mkBranch rt xyz_size yaw v)
  else if mode_eq src CAM && mode_eq dst DEPTH then
    let rt := or_default rt_mat (mat3 [1; 0; 0] [0; 0; 1] [0; -1; 0]) in
    let xyz_size := cat x_size [z_size; y_size] in
    let '(yaw, v) := branch_yaw with_yaw correct_yaw yaw yaw_vector_y
                       (fun yaw => tmap Ropp yaw) in
    Ok (mkBranch rt xyz_size yaw v)
  else if mode_eq src LIDAR && mode_eq dst DEPTH then
    let rt := or_default rt_mat (mat3 [0; -1; 0] [1; 0; 0] [0; 0; 1]) in
    let xyz_size := cat x_size [y_size; z_size] in
    let '(yaw, v) := branch_yaw with_yaw correct_yaw yaw yaw_vector_z
                       (fun yaw => wrap (tmap (fun y => y + PI / 2) yaw)) in
    Ok (mkBranch rt xyz_size yaw v)
  else if mode_eq src DEPTH && mode_eq dst LIDAR then
    let rt := or_default rt_mat (mat3 [0; 1; 0] [-1; 0; 0] [0; 0; 1]) in
    let xyz_size := cat x_size [y_size; z_size] in
    let '(yaw, v) := branch_yaw with_yaw correct_yaw yaw yaw_vector_z
                       (fun yaw => wrap (tmap (fun y => y - PI / 2) yaw)) in
    Ok (mkBranch rt xyz_size yaw v)
  else Raise NotImplementedError.

(** Lines 220-227: the centers through the matrix, affine when it has a
    fourth column. *)
Definition transform_xyz (arr rt_mat : Tensor) : result Tensor :=
  if Nat.eqb (size1 rt_mat) 4 then
    let extended_xyz := cat (slice_cols 0 3 arr) [new_ones (size0 arr)] in
    matmul extended_xyz (transpose rt_mat)
  else matmul (slice_cols 0 3 arr) (transpose rt_mat).

(** Lines 231-239: the yaw recomputed from the rotated yaw vector. *)
Definition corrected_yaw (dst : Box3DMode) (rt_mat yaw yaw_vector : Tensor)
  : result Tensor :=
  rot_yaw_vector <- matmul yaw_vector (transpose (slice_block 3 3 rt_mat)) ;;
  yaw' <- (if mode_eq dst CAM then
             z <- index_col 2 rot_yaw_vector ;;
             x <- index_col 0 rot_yaw_vector ;;
             Ok (tmap2 atan2 (tmap Ropp z) x)
           else if mode_eq dst LIDAR || mode_eq dst DEPTH then
             y <- index_col 1 rot_yaw_vector ;;
             x <- index_col 0 rot_yaw_vector ;;
             Ok (tmap2 atan2 y x)
           else Ok yaw) ;;
  Ok (wrap yaw').

(** The four column groups the output is assembled from. *)
Record Parts : Type := mkParts {
  p_xyz : Tensor;
  p_xyz_size : Tensor;
  p_yaw : Tensor;
  p_remains : Tensor
}.

(** Lines 123-245 on the working copy [arr], up to the final [cat]. *)
Definition convert_parts (arr : Tensor) (src dst : Box3DMode)
    (rt_mat : option Tensor) (with_yaw correct_yaw : bool) : result Parts :=
  br <- select_branch arr src dst rt_mat with_yaw correct_yaw ;;
  xyz <- transform_xyz arr (br_rt_mat br) ;;
  yaw <- (if with_yaw && correct_yaw then
            match br_yaw_vector br with
            | Some v => corrected_yaw dst (br_rt_mat br) (br_yaw br) v
            | None => Ok (br_yaw br)
            end
          else Ok (br_yaw br)) ;;
  Ok (mkParts (slice_cols 0 3 xyz) (br_xyz_size br) yaw
              (if with_yaw then slice_from 7 arr else slice_from 6 arr)).

(** Lines 241-246: the output buffer. *)
Definition assemble (with_yaw : bool) (p : Parts) : Tensor :=
  if with_yaw
  then cat (p_xyz p) [p_xyz_size p; p_yaw p; p_remains p]
  else cat (p_xyz p) [p_xyz_size p; p_remains p].

Definition convert_arr (arr : Tensor) (src dst : Box3DMode)
    (rt_mat : option Tensor) (with_yaw correct_yaw : bool) : result Tensor :=
  p <- convert_parts arr src dst rt_mat with_yaw correct_yaw ;;
  Ok (assemble with_yaw p).

(** ** Boxes as values *)

(** Modelled from the spec: the box sets of base_box3d.py, cam_box3d.py,
    lidar_box3d.py and depth_box3d.py, which are not among the sources.
    The spec: a box set is "a BoxSet object exposing its own with_yaw flag
    and an underlying (N,k) numeric buffer", and the result is "the
    destination coordinate system's concrete BoxSet subtype with the new
    buffer and the same with_yaw flag".  [BoxClass] names the class, and a
    box set is the class, the flag and the buffer. *)
Inductive BoxClass : Set :=
| BaseInstance3DBoxes
| CameraInstance3DBoxes
| LiDARInstance3DBoxes
| DepthInstance3DBoxes.

(** What [convert] accepts as [box]: a list, a tuple, a numpy array, a
    tensor, or a box set. *)
Inductive Box : Type :=
| BoxList (l : list R)
| BoxTuple (l : list R)
| BoxArray (a : Tensor)
| BoxTensor (t : Tensor)
| BoxInstance (c : BoxClass) (has_yaw : bool) (t : Tensor).

(** [isinstance(box, (list, tuple))]. *)
Definition single_box (box : Box) : bool :=
  match box with
  | BoxList _ | BoxTuple _ => true
  | _ => false
  end.

(** Lines 103-118: the working copy [arr]. *)
Definition working_copy (box : Box) : result Tensor :=
  match box with
  | BoxList l | BoxTuple l =>
      if Nat.leb 7 (length l) then Ok (of_row l) else Raise AssertionError
  | BoxArray a => Ok a
  | BoxInstance _ _ t => Ok t
  | BoxTensor t => Ok t
  end.

(** Lines 120-121: a box set's own flag replaces the argument. *)
Definition effective_with_yaw (box : Box) (with_yaw : bool) : bool :=
  match box with
  | BoxInstance _ has_yaw _ => has_yaw
  | _ => with_yaw
  end.

(** Lines 255-264. *)
Definition target_type (dst : Box3DMode) : result BoxClass :=
  if mode_eq dst CAM then Ok CameraInstance3DBoxes
  else if mode_eq dst LIDAR then Ok LiDARInstance3DBoxes
  else if mode_eq dst DEPTH then Ok DepthInstance3DBoxes
  else Raise NotImplementedError.

(** Lines 248-267: back to the type of the input. *)
Definition restore (box : Box) (dst : Box3DMode) (with_yaw : bool)
    (arr : Tensor) : result Box :=
  match box with
  | BoxList _ => Ok (BoxList (flatten arr))
  | BoxTuple _ => Ok (BoxTuple (flatten arr))
  | BoxArray _ => Ok (BoxArray arr)
  | BoxInstance _ _ _ =>
      c <- target_type dst ;; Ok (BoxInstance c with_yaw arr)
  | BoxTensor _ => Ok (BoxTensor arr)
  end.

(** [Box3DMode.convert], on values. *)
Definition convert (box : Box) (src dst : Box3DMode) (rt_mat : option Tensor)
    (with_yaw correct_yaw : bool) : result Box :=
  if mode_eq src dst then Ok box
  else
    arr <- working_copy box ;;
    let with_yaw := effective_with_yaw box with_yaw in
    arr <- convert_arr arr src dst rt_mat with_yaw correct_yaw ;;
    restore box dst with_yaw arr.

(** The numbers of a box as a tensor, whatever its container. *)
Definition box_tensor (box : Box) : Tensor :=
  match box with
  | BoxList l | BoxTuple l => of_row l
  | BoxArray t | BoxTensor t | BoxInstance _ _ t => t
  end.

(** ** Boxes as objects in a store *)

(** Buffers live in a store and are named by their address; an array, a
    tensor and a box set refer to their buffer, so two names of one buffer
    see each other's writes.  A list or tuple of Python floats is carried
    as it is. *)
Definition ref : Set := nat.
Definition Store : Type := list Tensor.

Inductive BoxObj : Type :=
| ObjList (l : list R)
| ObjTuple (l : list R)
| ObjArray (p : ref)
| ObjTensor (p : ref)
| ObjInstance (c : BoxClass) (has_yaw : bool) (p : ref).

(** A computation on the store: [None] when it follows an address the
    store does not hold (no Python state), otherwise the result or the
    exception together with the store it leaves. *)
Definition M (A : Type) : Type := Store -> option (result A * Store).

Definition ret {A : Type} (a : A) : M A := fun s => Some (Ok a, s).

Definition raise {A : Type} (e : exn) : M A := fun s => Some (Raise e, s).

Definition bindM {A B : Type} (m : M A) (k : A -> M B) : M B :=
  fun s =>
    match m s with
    | Some (Ok a, s') => k a s'
    | Some (Raise e, s') => Some (Raise e, s')
    | None => None
    end.

Definition lift {A : Type} (r : result A) : M A :=
  match r with
  | Ok a => ret a
  | Raise e => raise e
  end.

(** A new buffer, at the first free address. *)
Definition alloc (t : Tensor) : M ref :=
  fun s => Some (Ok (length s), s ++ [t]).

Definition load (p : ref) : M Tensor :=
  fun s =>
    match nth_error s p with
    | Some t => Some (Ok t, s)
    | None => None
    end.

(** [t.clone()]: a new buffer with the numbers of the old one. *)
Definition clone (p : ref) : M ref :=
  bindM (load p) alloc.

(** [Box3DMode.convert] on objects.  [torch.tensor(box)] copies the
    sequence into a new buffer; [torch.from_numpy] shares the array's
    buffer and [clone] copies it; every torch operation between the copy
    and the last [cat] returns a new tensor and writes to none, so the
    numbers of the result are [convert_arr] of the copy's and they go into
    one new buffer; [arr.numpy()] shares that buffer. *)
Definition convert_obj (box : BoxObj) (src dst : Box3DMode)
    (rt_mat : option Tensor) (with_yaw correct_yaw : bool) : M BoxObj :=
  if mode_eq src dst then ret box
  else
    bindM (match box with
           | ObjList l | ObjTuple l =>
               if Nat.leb 7 (length l) then alloc (of_row l)
               else raise AssertionError
           | ObjArray p => clone p
           | ObjInstance _ _ p => clone p
           | ObjTensor p => clone p
           end) (fun arr =>
    let with_yaw := match box with
                    | ObjInstance _ has_yaw _ => has_yaw
                    | _ => with_yaw
                    end in
    bindM (load arr) (fun a =>
    bindM (lift (convert_arr a src dst rt_mat with_yaw correct_yaw)) (fun out =>
    bindM (alloc out) (fun q =>
    match box with
    | ObjList _ => ret (ObjList (flatten out))
    | ObjTuple _ => ret (ObjTuple (flatten out))
    | ObjArray _ => ret (ObjArray q)
    | ObjInstance _ _ _ =>
        bindM (lift (target_type dst)) (fun c =>
        ret (ObjInstance c with_yaw q))
    | ObjTensor _ => ret (ObjTensor q)
    end)))).

(** The value an object stands for in a store. *)
Definition value_of (s : Store) (o : BoxObj) : option Box :=
  match o with
  | ObjList l => Some (BoxList l)
  | ObjTuple l => Some (BoxTuple l)
  | ObjArray p => option_map BoxArray (nth_error s p)
  | ObjTensor p => option_map BoxTensor (nth_error s p)
  | ObjInstance c y p => option_map (BoxInstance c y) (nth_error s p)
  end.

(** The buffer an object refers to, when it has one. *)
Definition buffer_of (o : BoxObj) : option ref :=
  match o with
  | ObjList _ | ObjTuple _ => None
  | ObjArray p | ObjTensor p | ObjInstance _ _ p => Some p
  end.

(** * Vocabulary of the properties *)

(** Two angles that differ by a whole number of turns. *)
Definition cong2pi (a b : R) : Prop := exists k : Z, a = b + IZR k * (2 * PI).

(** A yaw in the interval of [limit_period] for a full turn. *)
Definition in_range (y : R) : Prop := - PI <= y < PI.

(** [x] and [y] differ by at most [tol]. *)
Definition within (tol x y : R) : Prop := Rabs (x - y) <= tol.

(** Two yaws differ by at most [tol] after taking whole turns away. *)
Definition yaw_within (tol x y : R) : Prop :=
  exists k : Z, Rabs (x - y - IZR k * (2 * PI)) <= tol.

(** The tensor with the rows of [arr] mapped through [f], of width [w]. *)
Definition rowwise (arr : Tensor) (w : nat) (f : list R -> list R) : Tensor :=
  mkTensor (size0 arr) w (map f (data arr)).

(** The two conversions between LIDAR and DEPTH, which keep the order of
    the sizes. *)
Definition lidar_depth (src dst : Box3DMode) : bool :=
  (mode_eq src LIDAR && mode_eq dst DEPTH) ||
  (mode_eq src DEPTH && mode_eq dst LIDAR).

(** The two conversions between DEPTH and CAM, whose closed form only
    negates the yaw. *)
Definition depth_cam (src dst : Box3DMode) : bool :=
  (mode_eq src DEPTH && mode_eq dst CAM) ||
  (mode_eq src CAM && mode_eq dst DEPTH).

(** The matrix a branch installs when [rt_mat is None]. *)
Definition default_rt_mat (src dst : Box3DMode) : Tensor :=
  if mode_eq src LIDAR && mode_eq dst CAM then
    mat3 [0; -1; 0] [0; 0; -1] [1; 0; 0]
  else if mode_eq src CAM && mode_eq dst LIDAR then
    mat3 [0; 0; 1] [-1; 0; 0] [0; -1; 0]
  else if mode_eq src DEPTH && mode_eq dst CAM then
    mat3 [1; 0; 0] [0; 0; -1] [0; 1; 0]
  else if mode_eq src CAM && mode_eq dst DEPTH then
    mat3 [1; 0; 0] [0; 0; 1] [0; -1; 0]
  else if mode_eq src LIDAR && mode_eq dst DEPTH then
    mat3 [0; -1; 0] [1; 0; 0] [0; 0; 1]
  else mat3 [0; 1; 0] [-1; 0; 0] [0; 0; 1].

(** The center of a row through the matrix [m] (lines 222-227). *)
Definition row_xyz (m : Tensor) (r : list R) : list R :=
  map (dot (if Nat.eqb (size1 m) 4 then firstn 3 r ++ [1] else firstn 3 r))
      (data m).

(** The sizes of a row in the order of the branch. *)
Definition row_sizes (src dst : Box3DMode) (r : list R) : list R :=
  if lidar_depth src dst
  then [nth 3 r 0; nth 4 r 0; nth 5 r 0]
  else [nth 3 r 0; nth 5 r 0; nth 4 r 0].

(** The closed form of the new yaw ([correct_yaw=False]). *)
Definition fixup (src dst : Box3DMode) (y : R) : R :=
  if depth_cam src dst then - y
  else if mode_eq src LIDAR && mode_eq dst DEPTH then
    limit_period (y + PI / 2) (PI * 2)
  else if mode_eq src DEPTH && mode_eq dst LIDAR then
    limit_period (y - PI / 2) (PI * 2)
  else limit_period (- y - PI / 2) (PI * 2).

(** The angle the closed form wraps (or returns as it is). *)
Definition fixup_angle (src dst : Box3DMode) (y : R) : R :=
  if depth_cam src dst then - y
  else if mode_eq src LIDAR && mode_eq dst DEPTH then y + PI / 2
  else if mode_eq src DEPTH && mode_eq dst LIDAR then y - PI / 2
  else - y - PI / 2.

(** The yaw vector of a branch. *)
Definition yaw_vec (src : Box3DMode) (y : R) : list R :=
  if mode_eq src CAM then [cos (- y); 0; sin (- y)] else [cos y; sin y; 0].

(** The new yaw from the rotated yaw vector ([correct_yaw=True]). *)
Definition rotated_yaw (dst : Box3DMode) (m : Tensor) (v : list R) : R :=
  let rot := map (dot v) (map (firstn 3) (firstn 3 (data m))) in
  limit_period
    (if mode_eq dst CAM
     then atan2 (- nth 2 rot 0) (nth 0 rot 0)
     else atan2 (nth 1 rot 0) (nth 0 rot 0))
    (PI * 2).

(** The new yaw of a row. *)
Definition row_yaw (src dst : Box3DMode) (m : Tensor) (correct_yaw : bool)
    (y : R) : R :=
  if correct_yaw then rotated_yaw dst m (yaw_vec src y) else fixup src dst y.

(** What [convert] makes of one row: center, sizes, yaw if any, and the
    remaining fields. *)
Definition convert_row (src dst : Box3DMode) (m : Tensor)
    (with_yaw correct_yaw : bool) (r : list R) : list R :=
  row_xyz m r ++ row_sizes src dst r ++
  (if with_yaw
   then row_yaw src dst m correct_yaw (nth 6 r 0) :: skipn 7 r
   else skipn 6 r).

(** A matrix [convert] can apply to three coordinates: three rows of three
    or four numbers. *)
Definition rt_ok (m : Tensor) : Prop :=
  wf m /\ size0 m = 3%nat /\ (size1 m = 3%nat \/ size1 m = 4%nat).

(** The narrowest row the slices of [convert] do not run past. *)
Definition min_width (with_yaw : bool) : nat := if with_yaw then 7 else 6.

(** A member of the enumeration. *)
Definition known_mode (m : Box3DMode) : Prop :=
  m = LIDAR \/ m = CAM \/ m = DEPTH.

(** A box [convert] transforms without complaint: a rectangular buffer wide
    enough for its yaw flag, and at least seven numbers in a flat sequence. *)
Definition well_formed_box (box : Box) (with_yaw : bool) : Prop :=
  wf (box_tensor box) /\
  (min_width (effective_with_yaw box with_yaw) <= size1 (box_tensor box))%nat /\
  (single_box box = true -> (7 <= size1 (box_tensor box))%nat).

(** The rows of numbers of a box. *)
Definition rows_of (box : Box) : list (list R) := data (box_tensor box).

(** All numbers of a box in row-major order. *)
Definition numbers (box : Box) : list R := flatten (box_tensor box).

(** The three size fields of a row. *)
Definition sizes_of (r : list R) : list R := firstn 3 (skipn 3 r).

(** The yaws of a box, row by row. *)
Definition yaw_column (box : Box) : list R :=
  map (fun r => nth 6 r 0) (rows_of box).

(** A flat sequence with fewer than seven numbers. *)
Definition short_sequence (box : Box) : bool :=
  match box with
  | BoxList l | BoxTuple l => negb (Nat.leb 7 (length l))
  | _ => false
  end.

(** Row [r'] gives back row [r]: center and sizes in place, the yaw up to
    whole turns when there is one, the other fields as they were. *)
Definition row_restored (tol : R) (with_yaw : bool) (r r' : list R) : Prop :=
  Forall2 (within tol) (firstn 6 r') (firstn 6 r) /\
  if with_yaw
  then yaw_within tol (nth 6 r' 0) (nth 6 r 0) /\ skipn 7 r' = skipn 7 r
  else skipn 6 r' = skipn 6 r.

(** Rows that agree everywhere but in the yaw, where they agree up to
    whole turns. *)
Definition row_same_but_yaw (tol : R) (r r' : list R) : Prop :=
  firstn 6 r = firstn 6 r' /\
  yaw_within tol (nth 6 r 0) (nth 6 r' 0) /\
  skipn 7 r = skipn 7 r'.

(** A computation that leaves every buffer it found as it was: the store
    it returns is the one it was given, followed by new buffers. *)
Definition extends {A : Type} (m : M A) : Prop :=
  forall s r s', m s = Some (r, s') -> exists ext, s' = s ++ ext.

Ltac run_convert :=
  cbv -[Rplus Rmult Ropp Rminus Rdiv Rinv IZR PI cos sin atan
        limit_period atan2 Zfloor Rle Rlt Rabs].

Ltac row_eval :=
  cbv [convert_row row_xyz row_sizes lidar_depth default_rt_mat mat3
       mode_eq LIDAR CAM DEPTH Z.eqb Pos.eqb andb orb Nat.eqb
       size0 size1 data map dot firstn skipn nth app].

Ltac atan2_cases :=
  unfold atan2;
  repeat match goal with
         | |- context [Rlt_dec ?a ?b] => destruct (Rlt_dec a b); try lra
         | |- context [Rle_dec ?a ?b] => destruct (Rle_dec a b); try lra
         end.

(** ** Further vocabulary of [convert] *)

(** Rows that agree: everywhere but in the yaw, where they agree up to
    whole turns, when there is a yaw; everywhere when there is none. *)
Definition row_agrees (tol : R) (with_yaw : bool) (r r' : list R) : Prop :=
  if with_yaw then row_same_but_yaw tol r r' else r = r'.

(** The fields of a row after the sizes and the yaw. *)
Definition extras_of (with_yaw : bool) (r : list R) : list R :=
  skipn (min_width with_yaw) r.

(** The fourth column of a matrix, the translation. *)
Definition translation (m : Tensor) : list R :=
  map (fun row => nth 3 row 0) (data m).

(** The center of a row. *)
Definition center_of (r : list R) : list R := firstn 3 r.

(** The squared distance between two points. *)
Definition sq_dist (u v : list R) : R :=
  dot (zip_with Rminus u v) (zip_with Rminus u v).

(** The rotation by [phi] about the third axis. *)
Definition rot_z (phi : R) : Tensor :=
  mat3 [cos phi; - sin phi; 0] [sin phi; cos phi; 0] [0; 0; 1].

(** The sizes of a row of any width: the slices [3:4], [4:5] and [5:6],
    each empty past the end of the row, in the order of the branch. *)
Definition sizes_clamped (src dst : Box3DMode) (r : list R) : list R :=
  if lidar_depth src dst
  then firstn 1 (skipn 3 r) ++ firstn 1 (skipn 4 r) ++ firstn 1 (skipn 5 r)
  else firstn 1 (skipn 3 r) ++ firstn 1 (skipn 5 r) ++ firstn 1 (skipn 4 r).

(** What [convert] makes of a row of any width of at least three when the
    yaw vector is not used. *)
Definition convert_row_clamped (src dst : Box3DMode) (with_yaw : bool)
    (r : list R) : list R :=
  row_xyz (default_rt_mat src dst) r ++ sizes_clamped src dst r ++
  (if with_yaw
   then map (fixup src dst) (firstn 1 (skipn 6 r)) ++ skipn 7 r
   else skipn 6 r).

(** * WaymoDataset.load_data_list (mmdet3d/datasets/waymo_dataset.py) *)

Module Waymo.
Import String.
Import List ListNotations.

#[local] Unset Elimination Schemes.

(** The Python values an annotation file holds.  A dict is the list of
    its items in insertion order; its keys are strings. *)
Inductive PyVal : Type :=
| PNone
| PBool (b : bool)
| PInt (z : Z)
| PStr (s : string)
| PList (l : list PyVal)
| PDict (d : list (string * PyVal)).

#[local] Set Elimination Schemes.

Definition Dict : Type := list (string * PyVal).

Inductive pyexn : Set :=
| TypeError
| ValueError
| KeyError
| AttributeError
| OtherError (name : string).

Inductive outcome (A : Type) : Type :=
| Returns (a : A)
| Raises (e : pyexn).
Arguments Returns {A} a.
Arguments Raises {A} e.

(** [d.get(k)]. *)
Fixpoint lookup (k : string) (d : Dict) : option PyVal :=
  match d with
  | [] => None
  | (k', v) :: rest => if String.eqb k k' then Some v else lookup k rest
  end.

(** [k in d]. *)
Definition contains (k : string) (d : Dict) : bool :=
  match lookup k d with
  | Some _ => true
  | None => false
  end.

(** [d.setdefault(k, v)], as the dict it leaves. *)
Definition setdefault (k : string) (v : PyVal) (d : Dict) : Dict :=
  if contains k d then d else d ++ [(k, v)].

(** [isinstance(v, dict)]. *)
Definition is_dict (v : PyVal) : bool :=
  match v with
  | PDict _ => true
  | _ => false
  end.

(** The elements at positions [i], [i + k], [i + 2k], ... of a list,
    counting [i] down to the next one taken. *)
Fixpoint every {A : Type} (k i : nat) (l : list A) : list A :=
  match l with
  | [] => []
  | x :: rest =>
      match i with
      | O => x :: every k (k - 1) rest
      | S i' => every k i' rest
      end
  end.

(** [l[::k]] on a sequence: every [k]-th element from the first when [k]
    is positive, every [-k]-th from the last backwards when it is
    negative, and [ValueError] (slice step cannot be zero) for 0. *)
Definition slice_step {A : Type} (k : Z) (l : list A) : outcome (list A) :=
  if (k =? 0)%Z then Raises ValueError
  else if (0 <? k)%Z then Returns (every (Z.to_nat k) 0 l)
  else Returns (every (Z.to_nat (- k)) 0 (rev l)).

(** What the loop [for raw_data_info in raw_data_list[::k]] walks over: a
    list gives its elements, a string its characters, [None], a bool or
    an int cannot be subscripted ([TypeError]), and a dict cannot be
    indexed by a slice, which is not hashable ([TypeError]; Python 3.12
    made slices hashable and raises [KeyError] there). *)
Definition step_items (k : Z) (raw : PyVal) : outcome (list PyVal) :=
  match raw with
  | PList l => slice_step k l
  | PStr s =>
      match slice_step k (list_ascii_of_string s) with
      | Returns cs => Returns (map (fun c => PStr (String c EmptyString)) cs)
      | Raises e => Raises e
      end
  | _ => Raises TypeError
  end.

(** [for k, v in metainfo.items(): self._metainfo.setdefault(k, v)]. *)
Definition merge_metainfo (file_meta own : Dict) : Dict :=
  fold_left (fun d kv => setdefault (fst kv) (snd kv) d) file_meta own.

(** What [print_log] is called with. *)
Inductive LogRecord : Set :=
| SampleSizeReduced (load_interval : Z).

Section Dataset.

(** The rest of the dataset object: whatever [parse_data_info] reads. *)
Variable Other : Type.

(** The fields of the dataset [load_data_list] uses. *)
Record Dataset : Type := mkDataset {
  load_interval : Z;
  metainfo : Dict;
  other : Other
}.

(** [self.parse_data_info]: it is called on the dataset as it is after the
    merge of the meta information, and on one raw item.  Its own writes to
    the dataset object are not read by [load_data_list] and are not
    modelled. *)
Variable parse_data_info : Dataset -> PyVal -> outcome PyVal.

(** Lines 213-234: the loop over the raw items; [data_list] is the list
    built so far. *)
Fixpoint collect (self : Dataset) (raw_data_list data_list : list PyVal)
  : outcome (list PyVal) :=
  match raw_data_list with
  | [] => Returns data_list
  | raw_data_info :: rest =>
      match parse_data_info self raw_data_info with
      | Raises e => Raises e
      | Returns (PDict d) => collect self rest (data_list ++ [PDict d])
      | Returns (PList items) =>
          if forallb is_dict items
          then collect self rest (data_list ++ items)
          else Raises TypeError
      | Returns _ => Raises TypeError
      end
  end.

(** [load_data_list], given what [load(self.ann_file)] returned: the
    result or the exception, the dataset as the call leaves it, and what
    was logged. *)
Definition load_data_list (self : Dataset) (annotations : PyVal)
  : outcome (list PyVal) * Dataset * list LogRecord :=
  match annotations with
  | PDict ann =>
      if negb (contains "data_list"%string ann) || negb (contains "metainfo"%string ann)
      then (Raises ValueError, self, [])
      else
        match lookup "metainfo"%string ann, lookup "data_list"%string ann with
        | Some file_meta, Some raw_data_list =>
            match step_items (load_interval self) raw_data_list with
            | Raises e => (Raises e, self, [])
            | Returns raw_data_list =>
                let log := if (1 <? load_interval self)%Z
                           then [SampleSizeReduced (load_interval self)]
                           else [] in
                match file_meta with
                | PDict file_meta =>
                    let self' :=
                      mkDataset (load_interval self)
                                (merge_metainfo file_meta (metainfo self))
                                (other self) in
                    (collect self' raw_data_list [], self', log)
                | _ => (Raises AttributeError, self, log)
                end
            end
        | _, _ => (Raises KeyError, self, [])
        end
  | _ => (Raises TypeError, self, [])
  end.

(** The dataset after the merge of the meta information of the file. *)
Definition merged (self : Dataset) (file_meta : Dict) : Dataset :=
  mkDataset (load_interval self) (merge_metainfo file_meta (metainfo self))
            (other self).

(** The raw items a positive [load_interval] selects. *)
Definition selected (self : Dataset) (raw : list PyVal) : list PyVal :=
  every (Z.to_nat (load_interval self)) 0 raw.

End Dataset.

Arguments load_interval {Other} d.
Arguments metainfo {Other} d.
Arguments other {Other} d.
Arguments mkDataset {Other} load_interval metainfo other.
Arguments merged {Other} self file_meta.
Arguments selected {Other} self raw.

(** What one parsed item adds to the data list, when it is a dict or a
    list of dicts. *)
Definition entries_of (o : outcome PyVal) : option (list PyVal) :=
  match o with
  | Returns (PDict d) => Some [PDict d]
  | Returns (PList items) => if forallb is_dict items then Some items else None
  | _ => None
  end.

Definition entries_or_nil (o : outcome PyVal) : list PyVal :=
  match entries_of o with
  | Some l => l
  | None => []
  end.

(** An annotation dict of the documented form: a list of raw items under
    [data_list] and a dict under [metainfo]. *)
Definition annotation_of (ann : Dict) (raw : list PyVal) (file_meta : Dict)
  : Prop :=
  lookup "data_list"%string ann = Some (PList raw) /\
  lookup "metainfo"%string ann = Some (PDict file_meta).

End Waymo.

(** * PointFPModule.forward: the interpolation weights
    (mmdet3d/models/layers/pointnet_modules/point_fp_module.py) *)

Module PointFP.

(** The constant [1e-8]. *)
Definition eps : R := 1 / 100000000.

(** [torch.sum(t, dim=2)] at one target point: the sum of its row. *)
Definition sum (l : list R) : R := fold_right Rplus 0 l.

(** Line 66, at one target point: [1.0 / (dist + 1e-8)], elementwise on
    the distances to the neighbours [three_nn] found. *)
Definition dist_reciprocal (dist : list R) : list R :=
  map (fun d => 1 / (d + eps)) dist.

(** Line 67. *)
Definition norm (dist : list R) : R := sum (dist_reciprocal dist).

(** Line 68: [dist_reciprocal / norm]. *)
Definition weight (dist : list R) : list R :=
  map (fun r => r / norm dist) (dist_reciprocal dist).

End PointFP.

(** * Lemmas *)

(** ** Angles modulo a full turn *)

Lemma cong2pi_refl a : cong2pi a a.
Proof. exists 0%Z. lra. Qed.

Lemma cong2pi_sym a b : cong2pi a b -> cong2pi b a.
Proof. intros [k ->]. exists (- k)%Z. rewrite opp_IZR. lra. Qed.

Lemma cong2pi_trans a b c : cong2pi a b -> cong2pi b c -> cong2pi a c.
Proof.
  intros [k ->] [j ->]. exists (j + k)%Z. rewrite plus_IZR. lra.
Qed.

Lemma limit_period_cong v : cong2pi (limit_period v (PI * 2)) v.
Proof.
  unfold limit_period.
  exists (- Zfloor (v / (PI * 2) + 1 / 2))%Z. rewrite opp_IZR. lra.
Qed.

Lemma limit_period_bounds v p :
  0 < p -> - (p / 2) <= limit_period v p < p / 2.
Proof.
  intros Hp. unfold limit_period.
  destruct (Zfloor_bound (v / p + 1 / 2)) as [Hlo Hhi].
  set (k := IZR (Zfloor (v / p + 1 / 2))) in *.
  assert (Hv : v = v / p * p) by (field; lra).
  set (q := v / p) in *.
  rewrite Hv. split; nra.
Qed.

Lemma limit_period_2pi v : in_range (limit_period v (PI * 2)).
Proof.
  pose proof PI_RGT_0 as HPI.
  destruct (limit_period_bounds v (PI * 2)) as [Hlo Hhi]; [lra|].
  unfold in_range. split; lra.
Qed.

Lemma cos_period_Z x k : cos (x + IZR k * (2 * PI)) = cos x.
Proof.
  destruct (Z_le_gt_dec 0 k) as [Hk | Hk].
  - rewrite <- (Z2Nat.id k Hk), <- INR_IZR_INZ.
    replace (x + INR (Z.to_nat k) * (2 * PI))
      with (x + 2 * INR (Z.to_nat k) * PI) by ring.
    apply cos_period.
  - assert (Hn : (0 <= - k)%Z) by lia.
    rewrite <- (cos_period (x + IZR k * (2 * PI)) (Z.to_nat (- k))).
    rewrite INR_IZR_INZ, (Z2Nat.id _ Hn), opp_IZR. f_equal. ring.
Qed.

Lemma sin_period_Z x k : sin (x + IZR k * (2 * PI)) = sin x.
Proof.
  destruct (Z_le_gt_dec 0 k) as [Hk | Hk].
  - rewrite <- (Z2Nat.id k Hk), <- INR_IZR_INZ.
    replace (x + INR (Z.to_nat k) * (2 * PI))
      with (x + 2 * INR (Z.to_nat k) * PI) by ring.
    apply sin_period.
  - assert (Hn : (0 <= - k)%Z) by lia.
    rewrite <- (sin_period (x + IZR k * (2 * PI)) (Z.to_nat (- k))).
    rewrite INR_IZR_INZ, (Z2Nat.id _ Hn), opp_IZR. f_equal. ring.
Qed.

Lemma cong2pi_cos a b : cong2pi a b -> cos a = cos b.
Proof. intros [k ->]. apply cos_period_Z. Qed.

Lemma cong2pi_sin a b : cong2pi a b -> sin a = sin b.
Proof. intros [k ->]. apply sin_period_Z. Qed.

(** Every angle has a representative in [(-pi, pi]]. *)
Lemma principal_angle t : exists t0, cong2pi t0 t /\ - PI < t0 <= PI.
Proof.
  pose proof PI_RGT_0 as HPI.
  set (q := (t - PI) / (2 * PI)).
  destruct (Zceil_bound q) as [Hlo Hhi].
  exists (t + IZR (- Zceil q) * (2 * PI)). split.
  - now exists (- Zceil q)%Z.
  - rewrite opp_IZR.
    assert (Ht : t = q * (2 * PI) + PI) by (unfold q; field; lra).
    set (k := IZR (Zceil q)) in *. rewrite Ht. split; nra.
Qed.

Lemma atan2_principal t : - PI < t <= PI -> atan2 (sin t) (cos t) = t.
Proof.
  intros [Hlo Hhi]. pose proof PI_RGT_0 as HPI.
  destruct (Rtotal_order t (- (PI / 2))) as [H1 | [H1 | H1]].
  - (* third quadrant *)
    assert (Hc : cos t < 0).
    { rewrite <- cos_neg. apply cos_lt_0; lra. }
    assert (Hs : sin t < 0) by (apply sin_lt_0_var; lra).
    assert (Ht : sin t / cos t = tan (t + PI)).
    { unfold tan. rewrite neg_sin, neg_cos. field. lra. }
    atan2_cases. rewrite Ht, atan_tan; lra.
  - subst t. rewrite sin_neg, cos_neg, sin_PI2, cos_PI2. atan2_cases.
  - destruct (Rtotal_order t (PI / 2)) as [H2 | [H2 | H2]].
    + assert (Hc : 0 < cos t) by (apply cos_gt_0; lra).
      atan2_cases. change (sin t / cos t) with (tan t).
      apply atan_tan. lra.
    + subst t. rewrite sin_PI2, cos_PI2. atan2_cases.
    + assert (Hc : cos t < 0) by (apply cos_lt_0; lra).
      assert (Hs : 0 <= sin t) by (apply sin_ge_0; lra).
      assert (Ht : sin t / cos t = tan (t - PI)).
      { assert (Hs' : sin t = - sin (t - PI))
          by (rewrite <- neg_sin; f_equal; lra).
        assert (Hc' : cos t = - cos (t - PI))
          by (rewrite <- neg_cos; f_equal; lra).
        unfold tan. rewrite Hs', Hc'. field. lra. }
      atan2_cases. rewrite Ht, atan_tan; lra.
Qed.

(** [atan2] recovers an angle from its sine and cosine, up to whole turns. *)
Lemma atan2_sin_cos t : cong2pi (atan2 (sin t) (cos t)) t.
Proof.
  destruct (principal_angle t) as [t0 [Hc Ht0]].
  rewrite <- (cong2pi_sin _ _ Hc), <- (cong2pi_cos _ _ Hc).
  rewrite (atan2_principal _ Ht0). exact Hc.
Qed.

Create HintDb turns.
#[export] Hint Resolve cong2pi_refl limit_period_cong atan2_sin_cos : turns.

(** ** Tensors computed row by row *)

Lemma zip_app_map (f g : list R -> list R) d :
  zip_app (map f d) (map g d) = map (fun r => f r ++ g r) d.
Proof. induction d as [|r d IH]; simpl; [reflexivity | now rewrite IH]. Qed.

Lemma zip_rows_map h (f g : list R -> list R) d :
  zip_rows h (map f d) (map g d) = map (fun r => zip_with h (f r) (g r)) d.
Proof. induction d as [|r d IH]; simpl; [reflexivity | now rewrite IH]. Qed.

Lemma repeat_map {A B} (x : B) (d : list A) :
  repeat x (length d) = map (fun _ => x) d.
Proof. induction d as [|r d IH]; simpl; [reflexivity | now rewrite IH]. Qed.

Section Rowwise.
Variable arr : Tensor.

Lemma slice_cols_rowwise a b w f :
  slice_cols a b (rowwise arr w f) =
  rowwise arr (Nat.min b w - Nat.min a w)
          (fun r => firstn (b - a) (skipn a (f r))).
Proof. unfold slice_cols, rowwise. simpl. now rewrite map_map. Qed.

Lemma slice_from_rowwise a w f :
  slice_from a (rowwise arr w f) = rowwise arr (w - a) (fun r => skipn a (f r)).
Proof. unfold slice_from, rowwise. simpl. now rewrite map_map. Qed.

Lemma hcat_rowwise w f w' g :
  hcat (rowwise arr w f) (rowwise arr w' g) =
  rowwise arr (w + w') (fun r => f r ++ g r).
Proof. unfold hcat, rowwise. simpl. now rewrite zip_app_map. Qed.

Lemma tmap_rowwise h w f :
  tmap h (rowwise arr w f) = rowwise arr w (fun r => map h (f r)).
Proof. unfold tmap, rowwise. simpl. now rewrite map_map. Qed.

Lemma tmap2_rowwise h w f w' g :
  tmap2 h (rowwise arr w f) (rowwise arr w' g) =
  rowwise arr w (fun r => zip_with h (f r) (g r)).
Proof. unfold tmap2, rowwise. simpl. now rewrite zip_rows_map. Qed.

Lemma new_ones_rowwise :
  wf arr -> new_ones (size0 arr) = rowwise arr 1 (fun _ => [1]).
Proof.
  intros [Hn _]. unfold new_ones, rowwise.
  now rewrite <- Hn, repeat_map.
Qed.

Lemma matmul_rowwise w f b :
  w = size0 b ->
  matmul (rowwise arr w f) b =
  Ok (rowwise arr (size1 b) (fun r => map (dot (f r)) (columns b))).
Proof.
  intros ->. unfold matmul, rowwise. simpl. now rewrite Nat.eqb_refl, map_map.
Qed.

Lemma index_col_rowwise j w f :
  (j < w)%nat ->
  index_col j (rowwise arr w f) = Ok (rowwise arr 1 (fun r => [nth j (f r) 0])).
Proof.
  intros Hj. unfold index_col, rowwise. simpl.
  apply Nat.ltb_lt in Hj. now rewrite Hj, map_map.
Qed.
End Rowwise.

(** Transposing twice gives the rows back. *)
Lemma columns_transpose m : wf m -> columns (transpose m) = data m.
Proof.
  intros [Hn Hrows]. unfold columns, transpose. simpl.
  apply nth_ext with (d := []) (d' := []).
  - now rewrite length_map, length_seq.
  - intros i Hi. rewrite length_map, length_seq in Hi.
    rewrite (nth_indep _ [] (map (fun r : list R => nth 0%nat r 0)
                                 (map (fun j => map (fun r => nth j r 0) (data m))
                                      (seq 0 (size1 m))))).
    2:{ now rewrite length_map, length_seq. }
    rewrite (map_nth (fun j => map (fun r : list R => nth j r 0) _) (seq 0 (size0 m)) 0%nat i).
    rewrite seq_nth by assumption. simpl. unfold columns.
    rewrite map_map.
    assert (Hlen : length (nth i (data m) []) = size1 m).
    { rewrite Forall_forall in Hrows. apply Hrows, nth_In. lia. }
    apply nth_ext with (d := 0) (d' := 0).
    + now rewrite length_map, length_seq.
    + intros j Hj. rewrite length_map, length_seq in Hj.
      rewrite (nth_indep _ 0 ((fun x => nth i (map (fun r : list R => nth x r 0) (data m)) 0) 0%nat)).
      2:{ now rewrite length_map, length_seq. }
      rewrite (map_nth (fun x => nth i (map (fun r : list R => nth x r 0) (data m)) 0) (seq 0 (size1 m)) 0%nat j).
      rewrite seq_nth by assumption. simpl.
      rewrite (nth_indep _ 0 ((fun r : list R => nth j r 0) [])).
      2:{ rewrite length_map. lia. }
      now rewrite (map_nth (fun r : list R => nth j r 0) (data m) [] i).
Qed.

(** ** One row of [convert] *)

Lemma supported_cases src dst :
  supported src dst = true ->
  (src = LIDAR /\ dst = CAM) \/ (src = CAM /\ dst = LIDAR) \/
  (src = DEPTH /\ dst = CAM) \/ (src = CAM /\ dst = DEPTH) \/
  (src = LIDAR /\ dst = DEPTH) \/ (src = DEPTH /\ dst = LIDAR).
Proof.
  unfold supported, mode_eq. intros H.
  repeat (apply orb_true_iff in H; destruct H as [H | H]);
    apply andb_true_iff in H; destruct H as [H1 H2];
    apply Z.eqb_eq in H1, H2; tauto.
Qed.

Lemma default_rt_mat_ok src dst : rt_ok (default_rt_mat src dst).
Proof.
  unfold default_rt_mat, rt_ok, wf, mat3.
  repeat match goal with |- context [if ?b then _ else _] => destruct b end;
    simpl; repeat split; auto; repeat constructor.
Qed.

Lemma slice_cols_arr a b arr :
  slice_cols a b arr =
  rowwise arr (Nat.min b (size1 arr) - Nat.min a (size1 arr))
          (fun r => firstn (b - a) (skipn a r)).
Proof. reflexivity. Qed.

Lemma slice_from_arr a arr :
  slice_from a arr = rowwise arr (size1 arr - a) (skipn a).
Proof. reflexivity. Qed.

Lemma columns_transpose_block m :
  wf m -> columns (transpose (slice_block 3 3 m)) = map (firstn 3) (firstn 3 (data m)).
Proof.
  intros [Hn Hrows]. apply columns_transpose.
  unfold wf, slice_block. cbn [data size0 size1]. split.
  - rewrite length_map, length_firstn. lia.
  - apply Forall_map. apply Forall_forall. intros r Hr.
    assert (Hr' : In r (data m)).
    { rewrite <- (firstn_skipn 3 (data m)). apply in_or_app. now left. }
    rewrite Forall_forall in Hrows. rewrite length_firstn, (Hrows r Hr'). lia.
Qed.

Ltac rows_norm :=
  repeat first
    [ rewrite slice_cols_rowwise
    | rewrite slice_from_rowwise
    | rewrite slice_cols_arr
    | rewrite slice_from_arr
    | rewrite hcat_rowwise
    | rewrite tmap_rowwise
    | rewrite tmap2_rowwise ].

Lemma rt_ok_rows m :
  rt_ok m -> exists m0 m1 m2, data m = [m0; m1; m2].
Proof.
  intros ([Hn _] & H0 & _). rewrite H0 in Hn.
  destruct (data m) as [|m0 [|m1 [|m2 [|m3 l]]]]; try discriminate.
  now exists m0, m1, m2.
Qed.

Lemma rowwise_ext arr w w' f g :
  w = w' ->
  (forall r, In r (data arr) -> f r = g r) ->
  rowwise arr w f = rowwise arr w' g.
Proof.
  intros -> H. unfold rowwise. f_equal. now apply map_ext_in.
Qed.

(** Lines 220-227, row by row. *)
Lemma transform_xyz_rows arr m :
  wf arr -> (3 <= size1 arr)%nat -> rt_ok m ->
  transform_xyz arr m = Ok (rowwise arr 3 (row_xyz m)).
Proof.
  intros Hwf Hw Hrt. pose proof Hrt as (Hm & Hm0 & Hm1).
  unfold transform_xyz, cat, row_xyz. simpl fold_left.
  destruct (Nat.eqb_spec (size1 m) 4) as [E | E].
  - rewrite (new_ones_rowwise arr Hwf). rows_norm.
    rewrite matmul_rowwise by (cbn [transpose size0]; lia).
    rewrite (columns_transpose m Hm). cbn [transpose size1].
    apply f_equal, rowwise_ext; [assumption|].
    intros r _. reflexivity.
  - rows_norm.
    rewrite matmul_rowwise by (cbn [transpose size0]; lia).
    rewrite (columns_transpose m Hm). cbn [transpose size1].
    apply f_equal, rowwise_ext; [assumption|].
    intros r _. reflexivity.
Qed.

(** Lines 231-239, row by row. *)
Lemma corrected_yaw_rows arr dst m yaw w fv :
  rt_ok m -> known_mode dst -> w = 3%nat ->
  corrected_yaw dst m yaw (rowwise arr w fv) =
  Ok (rowwise arr 1 (fun r => [rotated_yaw dst m (fv r)])).
Proof.
  intros (Hm & Hm0 & Hm1) Hdst ->. unfold corrected_yaw.
  rewrite matmul_rowwise
    by (cbn [transpose slice_block size0 size1]; lia).
  rewrite (columns_transpose_block m Hm).
  cbn [transpose slice_block size0 size1 bind]. rewrite Hm0. cbn [Nat.min].
  unfold rotated_yaw.
  destruct Hdst as [-> | [-> | ->]];
    cbn [mode_eq LIDAR CAM DEPTH Z.eqb Pos.eqb orb];
    rewrite !index_col_rowwise by lia; cbn [bind]; unfold wrap;
    rows_norm; reflexivity.
Qed.

Lemma convert_arr_rows arr src dst rt with_yaw correct_yaw :
  wf arr ->
  (min_width with_yaw <= size1 arr)%nat ->
  supported src dst = true ->
  rt_ok (or_default rt (default_rt_mat src dst)) ->
  convert_arr arr src dst rt with_yaw correct_yaw =
  Ok (rowwise arr (size1 arr)
        (convert_row src dst (or_default rt (default_rt_mat src dst))
                     with_yaw correct_yaw)).
Proof.
  intros Hwf Hw Hsup Hrt.
  assert (Hw3 : (3 <= size1 arr)%nat) by (destruct with_yaw; simpl in Hw; lia).
  destruct (rt_ok_rows _ Hrt) as (m0 & m1 & m2 & Hdata).
  assert (Hrows : forall r, In r (data arr) -> length r = size1 arr).
  { destruct Hwf as [_ H]. now rewrite Forall_forall in H. }
  unfold convert_arr, convert_parts, select_branch.
  destruct (supported_cases _ _ Hsup)
    as [[-> ->]|[[-> ->]|[[-> ->]|[[-> ->]|[[-> ->]|[-> ->]]]]]];
    cbn [mode_eq LIDAR CAM DEPTH Z.eqb Pos.eqb andb];
    cbv [default_rt_mat mode_eq LIDAR CAM DEPTH Z.eqb Pos.eqb andb] in Hrt, Hdata |- *;
    set (m := or_default rt _) in *;
    unfold branch_yaw, yaw_vector_z, yaw_vector_y, wrap, zeros_like, cat, assemble;
    destruct with_yaw, correct_yaw; cbn [bind br_rt_mat br_yaw br_yaw_vector br_xyz_size andb fold_left];
    rewrite (transform_xyz_rows arr m Hwf Hw3 Hrt); cbn [bind];
    rows_norm;
    try (rewrite corrected_yaw_rows; [| exact Hrt | unfold known_mode; tauto | simpl in Hw; lia ]);
    cbn [bind p_xyz p_xyz_size p_yaw p_remains cat fold_left]; rows_norm.
  all: apply f_equal, rowwise_ext; [unfold min_width in Hw; try lia|].
  all: intros r Hr; apply Hrows in Hr; simpl in Hw.
  all: unfold convert_row, row_xyz, row_sizes, row_yaw, fixup, yaw_vec, lidar_depth, depth_cam;
    rewrite Hdata;
    cbn [mode_eq LIDAR CAM DEPTH Z.eqb Pos.eqb andb orb].
  all: destruct r as [|a0 [|a1 [|a2 [|a3 [|a4 [|a5 r]]]]]]; simpl in Hr; try lia.
  all: try (destruct r as [|a6 r]; simpl in Hr; [lia|]).
  all: destruct (Nat.eqb (size1 m) 4); reflexivity.
Qed.

(** ** The two yaw strategies *)

Lemma sin_shift_neg y : sin (- y - PI / 2) = - cos y.
Proof.
  replace (- y - PI / 2) with (- (y + PI / 2)) by lra.
  rewrite sin_neg, sin_plus, cos_PI2, sin_PI2. ring.
Qed.

Lemma cos_shift_neg y : cos (- y - PI / 2) = - sin y.
Proof.
  replace (- y - PI / 2) with (- (y + PI / 2)) by lra.
  rewrite cos_neg, cos_plus, cos_PI2, sin_PI2. ring.
Qed.

Lemma sin_shift_plus y : sin (y + PI / 2) = cos y.
Proof. rewrite sin_plus, cos_PI2, sin_PI2. ring. Qed.

Lemma cos_shift_plus y : cos (y + PI / 2) = - sin y.
Proof. rewrite cos_plus, cos_PI2, sin_PI2. ring. Qed.

Lemma sin_shift_minus y : sin (y - PI / 2) = - cos y.
Proof. rewrite sin_minus, cos_PI2, sin_PI2. ring. Qed.

Lemma cos_shift_minus y : cos (y - PI / 2) = sin y.
Proof. rewrite cos_minus, cos_PI2, sin_PI2. ring. Qed.

Lemma fixup_cong src dst y : cong2pi (fixup src dst y) (fixup_angle src dst y).
Proof.
  unfold fixup, fixup_angle.
  repeat match goal with |- context [if ?b then _ else _] => destruct b end;
    auto with turns.
Qed.

Lemma atan2_of_angle t s c :
  s = sin t -> c = cos t -> cong2pi (limit_period (atan2 s c) (PI * 2)) t.
Proof.
  intros -> ->.
  eauto using cong2pi_trans with turns.
Qed.

(** With the default matrix, the rotated yaw vector points along the angle
    of the closed form. *)
Lemma rotated_yaw_default src dst y :
  supported src dst = true ->
  cong2pi (rotated_yaw dst (default_rt_mat src dst) (yaw_vec src y))
          (fixup_angle src dst y).
Proof.
  intros Hsup.
  destruct (supported_cases _ _ Hsup)
    as [[-> ->]|[[-> ->]|[[-> ->]|[[-> ->]|[[-> ->]|[-> ->]]]]]];
    unfold rotated_yaw, fixup_angle, depth_cam, yaw_vec;
    cbv [default_rt_mat mode_eq LIDAR CAM DEPTH Z.eqb Pos.eqb andb orb mat3
         data map firstn dot nth];
    apply atan2_of_angle;
    rewrite ?sin_shift_neg, ?cos_shift_neg, ?sin_shift_plus, ?cos_shift_plus,
            ?sin_shift_minus, ?cos_shift_minus, ?sin_neg, ?cos_neg; ring.
Qed.

(** The two yaw strategies agree up to whole turns on the default matrix. *)
Lemma row_yaw_agree src dst y :
  supported src dst = true ->
  cong2pi (row_yaw src dst (default_rt_mat src dst) true y)
          (row_yaw src dst (default_rt_mat src dst) false y).
Proof.
  intros Hsup. unfold row_yaw.
  eapply cong2pi_trans; [apply rotated_yaw_default, Hsup|].
  apply cong2pi_sym, fixup_cong.
Qed.

Lemma row_yaw_angle src dst c y :
  supported src dst = true ->
  cong2pi (row_yaw src dst (default_rt_mat src dst) c y) (fixup_angle src dst y).
Proof.
  intros Hsup. destruct c; unfold row_yaw.
  - now apply rotated_yaw_default.
  - apply fixup_cong.
Qed.

Lemma supported_swap src dst : supported src dst = true -> supported dst src = true.
Proof.
  intros H.
  destruct (supported_cases _ _ H)
    as [[-> ->]|[[-> ->]|[[-> ->]|[[-> ->]|[[-> ->]|[-> ->]]]]]]; reflexivity.
Qed.

(** Going there and back, the closed-form angles cancel. *)
Lemma fixup_angle_roundtrip src dst y y' :
  supported src dst = true ->
  cong2pi y' (fixup_angle src dst y) ->
  cong2pi (fixup_angle dst src y') y.
Proof.
  intros Hsup [k ->].
  destruct (supported_cases _ _ Hsup)
    as [[-> ->]|[[-> ->]|[[-> ->]|[[-> ->]|[[-> ->]|[-> ->]]]]]];
    cbv [fixup_angle depth_cam mode_eq LIDAR CAM DEPTH Z.eqb Pos.eqb andb orb].
  1-4: exists (- k)%Z; rewrite opp_IZR; lra.
  all: exists k; lra.
Qed.

(** ** Rows there and back *)

Lemma convert_row_roundtrip src dst c r :
  supported src dst = true ->
  (7 <= length r)%nat ->
  let r' := convert_row dst src (default_rt_mat dst src) true c
              (convert_row src dst (default_rt_mat src dst) true c r) in
  firstn 6 r' = firstn 6 r /\
  cong2pi (nth 6 r' 0) (nth 6 r 0) /\
  skipn 7 r' = skipn 7 r.
Proof.
  intros Hsup Hlen.
  assert (Hyaw : forall y,
    cong2pi (row_yaw dst src (default_rt_mat dst src) c
               (row_yaw src dst (default_rt_mat src dst) c y)) y).
  { intros y. eapply cong2pi_trans.
    - apply row_yaw_angle, supported_swap, Hsup.
    - apply (fixup_angle_roundtrip src dst); [exact Hsup|].
      now apply row_yaw_angle. }
  destruct r as [|a0 [|a1 [|a2 [|a3 [|a4 [|a5 [|a6 r]]]]]]]; simpl in Hlen; try lia.
  specialize (Hyaw a6).
  destruct (supported_cases _ _ Hsup)
    as [[-> ->]|[[-> ->]|[[-> ->]|[[-> ->]|[[-> ->]|[-> ->]]]]]];
    row_eval; row_eval; (split; [| split; [exact Hyaw | reflexivity]]);
    repeat (f_equal; try ring).
Qed.

(** The fields of a converted row with yaw. *)
Lemma convert_row_fields src dst m c r :
  rt_ok m -> (7 <= length r)%nat ->
  firstn 6 (convert_row src dst m true c r) = row_xyz m r ++ row_sizes src dst r /\
  nth 6 (convert_row src dst m true c r) 0 = row_yaw src dst m c (nth 6 r 0) /\
  skipn 7 (convert_row src dst m true c r) = skipn 7 r.
Proof.
  intros Hm Hr. destruct (rt_ok_rows _ Hm) as (m0 & m1 & m2 & Hd).
  unfold convert_row, row_xyz, row_sizes, sizes_of. rewrite Hd.
  destruct (lidar_depth src dst); repeat split; reflexivity.
Qed.

Lemma convert_row_sizes src dst m with_yaw c r :
  rt_ok m -> (6 <= length r)%nat ->
  Permutation (sizes_of r) (sizes_of (convert_row src dst m with_yaw c r)).
Proof.
  intros Hm Hr. destruct (rt_ok_rows _ Hm) as (m0 & m1 & m2 & Hd).
  destruct r as [|a0 [|a1 [|a2 [|a3 [|a4 [|a5 r]]]]]]; simpl in Hr; try lia.
  unfold convert_row, row_xyz, row_sizes, sizes_of. rewrite Hd.
  destruct (lidar_depth src dst); cbn [map app skipn firstn nth].
  - apply Permutation_refl.
  - apply perm_skip, perm_swap.
Qed.

Lemma row_yaw_in_range src dst m c y :
  c = true \/ depth_cam src dst = false ->
  in_range (row_yaw src dst m c y).
Proof.
  unfold row_yaw, rotated_yaw, fixup. intros [-> | ->].
  - apply limit_period_2pi.
  - destruct c; [apply limit_period_2pi|].
    repeat match goal with |- context [if ?b then _ else _] => destruct b end;
      apply limit_period_2pi.
Qed.

Lemma row_yaw_negates src dst m y :
  depth_cam src dst = true -> row_yaw src dst m false y = - y.
Proof. unfold row_yaw, fixup. now intros ->. Qed.

(** ** From rows to boxes *)

Lemma supported_neq src dst : supported src dst = true -> mode_eq src dst = false.
Proof.
  intros H.
  destruct (supported_cases _ _ H)
    as [[-> ->]|[[-> ->]|[[-> ->]|[[-> ->]|[[-> ->]|[-> ->]]]]]]; reflexivity.
Qed.

Lemma supported_known_dst src dst : supported src dst = true -> known_mode dst.
Proof.
  intros H. unfold known_mode.
  destruct (supported_cases _ _ H)
    as [[-> ->]|[[-> ->]|[[-> ->]|[[-> ->]|[[-> ->]|[-> ->]]]]]]; tauto.
Qed.

Lemma target_type_known dst :
  known_mode dst -> exists c, target_type dst = Ok c.
Proof. intros [-> | [-> | ->]]; eexists; reflexivity. Qed.

Lemma convert_row_length src dst m with_yaw c r :
  rt_ok m -> (min_width with_yaw <= length r)%nat ->
  length (convert_row src dst m with_yaw c r) = length r.
Proof.
  intros Hm Hr. destruct (rt_ok_rows _ Hm) as (m0 & m1 & m2 & Hd).
  unfold convert_row, row_xyz, row_sizes. rewrite Hd.
  destruct r as [|a0 [|a1 [|a2 [|a3 [|a4 [|a5 r]]]]]];
    try (destruct with_yaw; simpl in Hr; lia).
  destruct with_yaw, (lidar_depth src dst); simpl in Hr |- *; try reflexivity.
  all: destruct r; simpl in Hr |- *; [lia | reflexivity].
Qed.

Lemma working_copy_ok box with_yaw :
  well_formed_box box with_yaw -> working_copy box = Ok (box_tensor box).
Proof.
  intros (_ & _ & H). destruct box as [l | l | a | t | c y t];
    cbn [working_copy box_tensor of_row size1 single_box] in *;
    try reflexivity.
  all: specialize (H eq_refl); apply Nat.leb_le in H; now rewrite H.
Qed.

Lemma rowwise_wf arr w f :
  wf arr -> (forall r, In r (data arr) -> length (f r) = w) ->
  wf (rowwise arr w f).
Proof.
  intros [Hn _] Hf. split; simpl.
  - now rewrite length_map.
  - apply Forall_map, Forall_forall. exact Hf.
Qed.

(** [convert] on a well-formed box and a supported pair: it succeeds, keeps
    the container, and its rows are [convert_row] of the input's. *)
Lemma convert_box_rows box src dst rt with_yaw c :
  well_formed_box box with_yaw ->
  supported src dst = true ->
  rt_ok (or_default rt (default_rt_mat src dst)) ->
  exists box',
    convert box src dst rt with_yaw c = Ok box' /\
    rows_of box' =
      map (convert_row src dst (or_default rt (default_rt_mat src dst))
                       (effective_with_yaw box with_yaw) c) (rows_of box) /\
    well_formed_box box' with_yaw /\
    effective_with_yaw box' with_yaw = effective_with_yaw box with_yaw.
Proof.
  intros Hbox Hsup Hrt. pose proof Hbox as (Hwf & Hw & Hs).
  unfold convert. rewrite (supported_neq _ _ Hsup).
  rewrite (working_copy_ok _ _ Hbox). cbn [bind].
  rewrite (convert_arr_rows _ _ _ _ _ _ Hwf Hw Hsup Hrt). cbn [bind].
  set (m := or_default rt _) in *.
  set (y := effective_with_yaw box with_yaw) in *.
  assert (Hlen : forall r, In r (data (box_tensor box)) ->
            length (convert_row src dst m y c r) = size1 (box_tensor box)).
  { intros r Hr. destruct Hwf as [_ Hrows]. rewrite Forall_forall in Hrows.
    rewrite convert_row_length; [now apply Hrows | exact Hrt |].
    rewrite (Hrows r Hr). exact Hw. }
  pose proof (rowwise_wf _ _ _ Hwf Hlen) as Hwf'.
  destruct (target_type_known dst (supported_known_dst _ _ Hsup)) as [cl Hcl].
  destruct box as [l | l | a | t | k hy t]; cbn [restore bind]; try rewrite Hcl;
    cbn [bind]; eexists; (split; [reflexivity|]).
  1,2: unfold rows_of, flatten; cbn [box_tensor of_row rowwise data concat map];
       rewrite app_nil_r; cbn [box_tensor of_row data size1] in Hlen, Hw, Hs;
       assert (Hl : length (convert_row src dst m y c l) = length l)
         by (apply Hlen; now left);
       (split; [reflexivity|]); (split; [| reflexivity]);
       unfold well_formed_box, wf; cbn [box_tensor of_row data size0 size1 single_box effective_with_yaw length];
       rewrite Hl; repeat split; auto.
  all: unfold rows_of; cbn [box_tensor rowwise data]; (split; [reflexivity|]);
       (split; [| reflexivity]);
       unfold well_formed_box; cbn [box_tensor single_box effective_with_yaw rowwise size1] in *;
       repeat split; try apply Hwf'; auto; discriminate.
Qed.

(** ** The exceptions of each stage *)

Lemma matmul_raises a b e : matmul a b = Raise e -> e = RuntimeError.
Proof.
  unfold matmul. destruct (Nat.eqb _ _); [discriminate | now intros [= <-]].
Qed.

Lemma index_col_raises j t e : index_col j t = Raise e -> e = IndexError.
Proof.
  unfold index_col. destruct (Nat.ltb _ _); [discriminate | now intros [= <-]].
Qed.

Lemma select_branch_raises arr src dst rt wy c e :
  select_branch arr src dst rt wy c = Raise e -> e = NotImplementedError.
Proof.
  unfold select_branch, branch_yaw.
  repeat match goal with
         | |- context [if ?b then _ else _] => destruct b
         end; try discriminate; now intros [= <-].
Qed.

Lemma select_branch_supported arr src dst rt wy c :
  supported src dst = false ->
  select_branch arr src dst rt wy c = Raise NotImplementedError.
Proof.
  unfold supported, select_branch. intros H.
  repeat (apply orb_false_iff in H; destruct H as [H ?]).
  repeat match goal with
         | E : _ && _ = false |- _ => rewrite E; clear E
         end.
  reflexivity.
Qed.

Lemma transform_xyz_raises arr m e :
  transform_xyz arr m = Raise e -> e = RuntimeError.
Proof.
  unfold transform_xyz. destruct (Nat.eqb _ _); apply matmul_raises.
Qed.

Lemma corrected_yaw_raises dst m yaw v e :
  corrected_yaw dst m yaw v = Raise e -> e = RuntimeError \/ e = IndexError.
Proof.
  unfold corrected_yaw.
  destruct (matmul v _) as [rot | e'] eqn:Hm; cbn [bind].
  - destruct (mode_eq dst CAM); [| destruct (_ || _)]; cbn [bind].
    + destruct (index_col 2 rot) eqn:H2; cbn [bind].
      * destruct (index_col 0 rot) eqn:H0; cbn [bind]; [discriminate|].
        intros [= <-]. right. eapply index_col_raises, H0.
      * intros [= <-]. right. eapply index_col_raises, H2.
    + destruct (index_col 1 rot) eqn:H1; cbn [bind].
      * destruct (index_col 0 rot) eqn:H0; cbn [bind]; [discriminate|].
        intros [= <-]. right. eapply index_col_raises, H0.
      * intros [= <-]. right. eapply index_col_raises, H1.
    + discriminate.
  - intros [= <-]. left. eapply matmul_raises, Hm.
Qed.

(** [convert_arr] can end with a shape or index error or with
    [NotImplementedError], never with an assertion failure. *)
Lemma convert_arr_raises arr src dst rt wy c e :
  convert_arr arr src dst rt wy c = Raise e -> e <> AssertionError.
Proof.
  unfold convert_arr, convert_parts.
  destruct (select_branch arr src dst rt wy c) as [br | e'] eqn:Hb; cbn [bind].
  - destruct (transform_xyz arr (br_rt_mat br)) as [xyz | e'] eqn:Hx; cbn [bind].
    + destruct (wy && c); cbn [bind]; [| discriminate].
      destruct (br_yaw_vector br); cbn [bind]; [| discriminate].
      destruct (corrected_yaw _ _ _ _) eqn:Hy; cbn [bind]; [discriminate|].
      intros [= <-]. apply corrected_yaw_raises in Hy. destruct Hy; now subst.
    + intros [= <-]. apply transform_xyz_raises in Hx. now subst.
  - intros [= <-]. apply select_branch_raises in Hb. now subst.
Qed.

Lemma working_copy_short box :
  short_sequence box = true -> working_copy box = Raise AssertionError.
Proof.
  destruct box; cbn [short_sequence working_copy]; try discriminate;
    destruct (Nat.leb 7 (length l)); cbn [negb]; congruence.
Qed.

Lemma working_copy_long box :
  short_sequence box = false -> working_copy box = Ok (box_tensor box).
Proof.
  destruct box; cbn [short_sequence working_copy box_tensor]; try reflexivity;
    destruct (Nat.leb 7 (length l)); cbn [negb]; congruence.
Qed.

(** ** The store only grows *)

Section Extends.
Context {A B : Type}.

Lemma extends_ret (a : A) : extends (ret a).
Proof. intros s r s' [= <- <-]. exists []. now rewrite app_nil_r. Qed.

Lemma extends_raise (e : exn) : extends (@raise A e).
Proof. intros s r s' [= <- <-]. exists []. now rewrite app_nil_r. Qed.

Lemma extends_lift (x : result A) : extends (lift x).
Proof. destruct x; [apply extends_ret | apply extends_raise]. Qed.

Lemma extends_bind (m : M A) (k : A -> M B) :
  extends m -> (forall a, extends (k a)) -> extends (bindM m k).
Proof.
  intros Hm Hk s r s'. unfold bindM.
  destruct (m s) as [[[a | e] s1] |] eqn:E; [| | discriminate].
  - intros H. destruct (Hm _ _ _ E) as [e1 ->].
    destruct (Hk _ _ _ _ H) as [e2 ->]. exists (e1 ++ e2). now rewrite app_assoc.
  - intros [= <- <-]. exact (Hm _ _ _ E).
Qed.
End Extends.

Lemma extends_alloc t : extends (alloc t).
Proof. intros s r s' [= <- <-]. now exists [t]. Qed.

Lemma extends_load p : extends (load p).
Proof.
  intros s r s'. unfold load. destruct (nth_error s p); [| discriminate].
  intros [= <- <-]. exists []. now rewrite app_nil_r.
Qed.

Lemma extends_clone p : extends (clone p).
Proof.
  apply extends_bind; [apply extends_load | intros; apply extends_alloc].
Qed.

Lemma convert_obj_extends o src dst rt wy c :
  extends (convert_obj o src dst rt wy c).
Proof.
  unfold convert_obj. destruct (mode_eq src dst); [apply extends_ret|].
  apply extends_bind.
  - destruct o; try apply extends_clone;
      destruct (Nat.leb 7 (length l));
      first [apply extends_alloc | apply extends_raise].
  - intros arr. apply extends_bind; [apply extends_load|]. intros a.
    apply extends_bind; [apply extends_lift|]. intros out.
    apply extends_bind; [apply extends_alloc|]. intros q.
    destruct o; try apply extends_ret.
    apply extends_bind; [apply extends_lift | intros; apply extends_ret].
Qed.

Lemma nth_error_extends {A} (s ext : list A) p t :
  nth_error s p = Some t -> nth_error (s ++ ext) p = Some t.
Proof.
  intros H. rewrite nth_error_app1; [exact H|].
  apply nth_error_Some. congruence.
Qed.

Lemma nth_error_last {A} (s : list A) t ext :
  nth_error (s ++ t :: ext) (length s) = Some t.
Proof. rewrite nth_error_app2, Nat.sub_diag by lia. reflexivity. Qed.

(** What [convert_obj] does to objects is what [convert] does to the
    values they stand for. *)
Lemma convert_obj_refines o b src dst rt wy c s :
  value_of s o = Some b ->
  exists r s',
    convert_obj o src dst rt wy c s = Some (r, s') /\
    match convert b src dst rt wy c with
    | Ok b' => exists o', r = Ok o' /\ value_of s' o' = Some b'
    | Raise e => r = Raise e
    end.
Proof.
  intros Hv. unfold convert_obj, convert.
  destruct (mode_eq src dst).
  { exists (Ok o), s. split; [reflexivity|]. exists o. now split. }
  destruct o as [l | l | p | p | k hy p]; simpl in Hv.
  1,2: injection Hv as <-; cbn [working_copy effective_with_yaw];
       unfold bindM; destruct (Nat.leb 7 (length l)); cbn [bind alloc raise];
       [| eexists; eexists; split; reflexivity];
       unfold load; rewrite (nth_error_last s (of_row l) []);
       destruct (convert_arr _ _ _ _ _ _) as [out | e]; cbn [lift ret raise bind restore alloc];
       eexists; eexists; (split; [reflexivity|]);
       [eexists; split; reflexivity | reflexivity].
  all: destruct (nth_error s p) as [t |] eqn:E; [| discriminate];
       injection Hv as <-; cbn [working_copy effective_with_yaw bind];
       unfold bindM, clone, bindM, load; rewrite E; cbn [alloc];
       rewrite (nth_error_last s t []);
       destruct (convert_arr _ _ _ _ _ _) as [out | e]; cbn [lift ret raise bind restore alloc];
       try (eexists; eexists; split; reflexivity).
  1,2: eexists; eexists; (split; [reflexivity|]);
       eexists; (split; [reflexivity|]); cbn [value_of];
       rewrite (nth_error_last (s ++ [t]) out []); reflexivity.
  destruct (target_type dst) as [k' | e]; cbn [lift ret raise bind];
    eexists; eexists; (split; [reflexivity|]); [| reflexivity].
  eexists; (split; [reflexivity|]); cbn [value_of].
  rewrite (nth_error_last (s ++ [t]) out []); reflexivity.
Qed.

(** The buffer of a converted object is a new one. *)
Lemma convert_obj_fresh o src dst rt wy c s o' s' q :
  mode_eq src dst = false ->
  convert_obj o src dst rt wy c s = Some (Ok o', s') ->
  buffer_of o' = Some q -> (length s <= q)%nat.
Proof.
  intros Hne. unfold convert_obj. rewrite Hne.
  unfold bindM, clone, bindM, load, alloc.
  destruct o as [l | l | p | p | k hy p].
  1,2: destruct (Nat.leb 7 (length l)); cbn [raise]; [| discriminate];
       rewrite (nth_error_last s (of_row l) []);
       destruct (convert_arr _ _ _ _ _ _); cbn [lift ret raise]; [| discriminate];
       intros [= <- <-]; discriminate.
  all: destruct (nth_error s p) as [t |]; [| discriminate];
       rewrite (nth_error_last s t []);
       destruct (convert_arr _ _ _ _ _ _); cbn [lift ret raise]; [| discriminate].
  1,2: intros [= <- <-] [= <-]; rewrite length_app; simpl; lia.
  destruct (target_type dst); cbn [lift ret raise]; [| discriminate].
  intros [= <- <-] [= <-]; rewrite length_app; simpl; lia.
Qed.

(** ** Tolerances and rows *)

Lemma within_refl tol x : 0 <= tol -> within tol x x.
Proof.
  intros H. unfold within. replace (x - x) with 0 by ring. now rewrite Rabs_R0.
Qed.

Lemma Forall2_within_refl tol l : 0 <= tol -> Forall2 (within tol) l l.
Proof.
  intros H. induction l; constructor; auto using within_refl.
Qed.

Lemma cong2pi_yaw_within tol x y : 0 <= tol -> cong2pi x y -> yaw_within tol x y.
Proof.
  intros H [k ->]. exists k.
  replace (y + IZR k * (2 * PI) - y - IZR k * (2 * PI)) with 0 by ring.
  now rewrite Rabs_R0.
Qed.

Lemma Forall2_map_in {A B} (P : A -> B -> Prop) (f : A -> B) l :
  (forall x, In x l -> P x (f x)) -> Forall2 P l (map f l).
Proof.
  induction l as [|x l IH]; intros H; simpl; constructor.
  - apply H. now left.
  - apply IH. intros y Hy. apply H. now right.
Qed.

Lemma Forall2_maps_in {A B C} (P : B -> C -> Prop) (f : A -> B) (g : A -> C) l :
  (forall x, In x l -> P (f x) (g x)) -> Forall2 P (map f l) (map g l).
Proof.
  induction l as [|x l IH]; intros H; simpl; constructor.
  - apply H. now left.
  - apply IH. intros y Hy. apply H. now right.
Qed.

Lemma limit_period_quarter : limit_period (- 0 - PI / 2) (PI * 2) = - (PI / 2).
Proof.
  pose proof PI_RGT_0 as HPI. unfold limit_period.
  replace ((- 0 - PI / 2) / (PI * 2) + 1 / 2) with (1 / 4) by (field; lra).
  rewrite (Zfloor_eq 0 (1 / 4)) by (simpl; lra). lra.
Qed.

(** * The specification's claims *)

(** C1. The flat box [1,2,3,4,5,6,0.0] taken from LIDAR to CAM with the
    default matrix and [correct_yaw=False] comes back with center
    (-2,-3,1), sizes (4,6,5) and yaw [limit_period(-0 - pi/2)], which is
    [-pi/2]. *)
Theorem convert_lidar_cam_example :
  convert (BoxList [1; 2; 3; 4; 5; 6; 0]) LIDAR CAM None true false =
    Ok (BoxList [-2; -3; 1; 4; 6; 5; - (PI / 2)]) /\
  limit_period (- 0 - PI / 2) (PI * 2) = - (PI / 2).
Proof.
  split; [| exact limit_period_quarter].
  run_convert. rewrite limit_period_quarter.
  repeat (f_equal; try ring).
Qed.

Lemma convert_row_roundtrip_noyaw src dst c r :
  supported src dst = true ->
  (6 <= length r)%nat ->
  let r' := convert_row dst src (default_rt_mat dst src) false c
              (convert_row src dst (default_rt_mat src dst) false c r) in
  firstn 6 r' = firstn 6 r /\ skipn 6 r' = skipn 6 r.
Proof.
  intros Hsup Hlen.
  destruct r as [|a0 [|a1 [|a2 [|a3 [|a4 [|a5 r]]]]]]; simpl in Hlen; try lia.
  destruct (supported_cases _ _ Hsup)
    as [[-> ->]|[[-> ->]|[[-> ->]|[[-> ->]|[[-> ->]|[-> ->]]]]]];
    row_eval; row_eval; (split; [| reflexivity]);
    repeat (f_equal; try ring).
Qed.

Lemma convert_row_restored tol src dst with_yaw c r :
  0 <= tol ->
  supported src dst = true ->
  (min_width with_yaw <= length r)%nat ->
  row_restored tol with_yaw r
    (convert_row dst src (default_rt_mat dst src) with_yaw c
       (convert_row src dst (default_rt_mat src dst) with_yaw c r)).
Proof.
  intros Htol Hsup Hlen. unfold row_restored. destruct with_yaw.
  - destruct (convert_row_roundtrip src dst c r Hsup Hlen) as (H1 & H2 & H3).
    rewrite H1. repeat split; auto using Forall2_within_refl, cong2pi_yaw_within.
  - destruct (convert_row_roundtrip_noyaw src dst c r Hsup Hlen) as (H1 & H2).
    rewrite H1. split; auto using Forall2_within_refl.
Qed.

Lemma rows_length box with_yaw r :
  well_formed_box box with_yaw -> In r (rows_of box) ->
  (min_width (effective_with_yaw box with_yaw) <= length r)%nat.
Proof.
  intros ([_ Hrows] & Hw & _) Hr. rewrite Forall_forall in Hrows.
  now rewrite (Hrows r Hr).
Qed.

(** C2. For each of the six supported pairs, a well-formed box taken from
    [src] to [dst] and back with the default matrices has its center and
    sizes back in place and its yaw back up to whole turns, within any
    tolerance [tol >= 0] (so within 1e-5), for both values of
    [correct_yaw]; the other fields come back as they were. *)
Theorem convert_round_trip box src dst with_yaw c tol :
  supported src dst = true ->
  well_formed_box box with_yaw ->
  0 <= tol ->
  exists mid back,
    convert box src dst None with_yaw c = Ok mid /\
    convert mid dst src None with_yaw c = Ok back /\
    Forall2 (row_restored tol (effective_with_yaw box with_yaw))
            (rows_of box) (rows_of back).
Proof.
  intros Hsup Hbox Htol.
  destruct (convert_box_rows box src dst None with_yaw c Hbox Hsup
              (default_rt_mat_ok src dst))
    as (mid & Hmid & Hrows & Hwf & Hy).
  destruct (convert_box_rows mid dst src None with_yaw c Hwf
              (supported_swap _ _ Hsup) (default_rt_mat_ok dst src))
    as (back & Hback & Hrows' & _ & _).
  exists mid, back. repeat split; try assumption.
  rewrite Hrows', Hrows, Hy, map_map. cbn [or_default].
  apply Forall2_map_in. intros r Hr.
  apply convert_row_restored; try assumption.
  eapply rows_length; eassumption.
Qed.

Lemma example_box_ok :
  well_formed_box (BoxList [1; 2; 3; 4; 5; 6; 0]) true.
Proof.
  unfold well_formed_box, wf. simpl. repeat split; auto.
Defined.

Lemma convert_round_trip_witness :
  exists mid back,
    convert (BoxList [1; 2; 3; 4; 5; 6; 0]) LIDAR CAM None true true = Ok mid /\
    convert mid CAM LIDAR None true true = Ok back /\
    Forall2 (row_restored (1 / 100000) true)
            (rows_of (BoxList [1; 2; 3; 4; 5; 6; 0])) (rows_of back).
Proof.
  apply (convert_round_trip (BoxList [1; 2; 3; 4; 5; 6; 0]) LIDAR CAM true true
           (1 / 100000)).
  - reflexivity.
  - exact example_box_ok.
  - lra.
Defined.

Lemma wrap_in_range t : Forall (Forall in_range) (data (wrap t)).
Proof.
  unfold wrap, tmap. cbn [data].
  apply Forall_map, Forall_forall. intros r _.
  apply Forall_map, Forall_forall. intros y _. apply limit_period_2pi.
Qed.

Lemma corrected_yaw_in_range dst m yaw v out :
  corrected_yaw dst m yaw v = Ok out -> Forall (Forall in_range) (data out).
Proof.
  unfold corrected_yaw.
  destruct (matmul v _) as [rot |]; cbn [bind]; [| discriminate].
  match goal with |- context [bind ?x _] => destruct x end; cbn [bind];
    [| discriminate].
  intros [= <-]. apply wrap_in_range.
Qed.

(** The yaw of the parts: wrapped, except on the two branches between
    DEPTH and CAM with [correct_yaw=False], which negate it and stop. *)
Lemma convert_parts_yaw arr src dst rt c p :
  convert_parts arr src dst rt true c = Ok p ->
  (c = true \/ depth_cam src dst = false ->
   Forall (Forall in_range) (data (p_yaw p))) /\
  (c = false -> depth_cam src dst = true ->
   p_yaw p = tmap Ropp (slice_cols 6 7 arr)).
Proof.
  destruct (supported src dst) eqn:Hsup.
  2:{ unfold convert_parts.
      rewrite (select_branch_supported _ _ _ _ _ _ Hsup). discriminate. }
  unfold convert_parts, select_branch, branch_yaw, depth_cam.
  destruct (supported_cases _ _ Hsup)
    as [[-> ->]|[[-> ->]|[[-> ->]|[[-> ->]|[[-> ->]|[-> ->]]]]]];
    cbn [mode_eq LIDAR CAM DEPTH Z.eqb Pos.eqb andb orb];
    destruct c; cbn [bind br_rt_mat br_yaw br_yaw_vector andb];
    (destruct (transform_xyz arr _) as [xyz |]; cbn [bind]; [| discriminate]);
    try (destruct (corrected_yaw _ _ _ _) as [y |] eqn:Hy; cbn [bind];
         [| discriminate]);
    intros [= <-]; cbn [p_yaw]; split;
    try (intros _; first [ eapply corrected_yaw_in_range, Hy
                         | apply wrap_in_range ]);
    try (intros; discriminate);
    try (intros _ _; reflexivity).
  all: intros [? | ?]; discriminate.
Qed.

(** C3, the claim as stated fails: DEPTH to CAM with [correct_yaw=False]
    only negates the yaw, so the yaw 5 comes out as -5, below [-pi]. *)
Lemma depth_cam_yaw_not_wrapped :
  convert (BoxList [0; 0; 0; 1; 1; 1; 5]) DEPTH CAM None true false =
    Ok (BoxList [0; 0; 0; 1; 1; 1; -5]) /\
  ~ in_range (-5).
Proof.
  split.
  - run_convert. repeat (f_equal; try ring).
  - unfold in_range. pose proof PI_4. lra.
Qed.

(** C3, amended. On a supported pair, a well-formed box with yaw and the
    default or any 3x3 or 3x4 [rt_mat], the conversion succeeds and every
    output yaw lies in [[-pi, pi)] if [correct_yaw] is set or the pair is
    not DEPTH/CAM; between DEPTH and CAM with [correct_yaw=False] every
    output yaw is the negated input yaw, not wrapped. *)
Theorem output_yaw_range box src dst rt with_yaw c :
  supported src dst = true ->
  well_formed_box box with_yaw ->
  effective_with_yaw box with_yaw = true ->
  rt_ok (or_default rt (default_rt_mat src dst)) ->
  exists box',
    convert box src dst rt with_yaw c = Ok box' /\
    (c = true \/ depth_cam src dst = false ->
     Forall in_range (yaw_column box')) /\
    (c = false -> depth_cam src dst = true ->
     yaw_column box' = map Ropp (yaw_column box)).
Proof.
  intros Hsup Hbox Hy Hrt.
  destruct (convert_box_rows box src dst rt with_yaw c Hbox Hsup Hrt)
    as (box' & Hc & Hrows & _).
  exists box'. split; [assumption|].
  set (m := or_default rt _) in *.
  assert (Hcol : yaw_column box' =
                 map (fun y => row_yaw src dst m c y) (yaw_column box)).
  { unfold yaw_column. rewrite Hrows, Hy, !map_map.
    apply map_ext_in. intros r Hr.
    pose proof (rows_length _ _ _ Hbox Hr) as Hlen. rewrite Hy in Hlen.
    now destruct (convert_row_fields src dst m c r Hrt Hlen) as (_ & Y & _). }
  rewrite Hcol. split.
  - intros Hwrap. apply Forall_map, Forall_forall. intros y _.
    now apply row_yaw_in_range.
  - intros -> Hdc. apply map_ext. intros y. now apply row_yaw_negates.
Qed.

Lemma output_yaw_range_witness :
  exists box',
    convert (BoxList [1; 2; 3; 4; 5; 6; 0]) CAM DEPTH None true false =
      Ok box' /\
    (false = true \/ depth_cam CAM DEPTH = false ->
     Forall in_range (yaw_column box')) /\
    (false = false -> depth_cam CAM DEPTH = true ->
     yaw_column box' = map Ropp (yaw_column (BoxList [1; 2; 3; 4; 5; 6; 0]))).
Proof.
  apply (output_yaw_range (BoxList [1; 2; 3; 4; 5; 6; 0]) CAM DEPTH None true
           false).
  - reflexivity.
  - unfold well_formed_box, wf. simpl. repeat split; auto.
  - reflexivity.
  - unfold rt_ok, wf. simpl. repeat split; auto.
Defined.

(** C4. The code misses the check the claim asks for: a tensor with five
    fields and [with_yaw=True] is not rejected, although the message of
    the assertion of lines 107-109 asks of an Nxk array or tensor that
    k >= 7 and the list path enforces it.  Lines 112-118 only clone; the
    slices past the width are empty and a box of five fields comes
    back. *)
Lemma narrow_tensor_not_rejected :
  (size1 (of_row [1; 2; 3; 4; 5]%R) < 7)%nat /\
  convert (BoxTensor (of_row [1; 2; 3; 4; 5])) LIDAR CAM None true false =
    Ok (BoxTensor (mkTensor 1 5 [[-2; -3; 1; 4; 5]])).
Proof.
  split; [simpl; lia|].
  run_convert. repeat (f_equal; try ring).
Qed.

(** The sibling path.  On a list or tuple the assertion of lines 107-109
    does enforce the width, before any transform, and it is the only
    place [AssertionError] comes from: between different modes the call
    ends in it exactly when the box is a list or tuple of fewer than
    seven numbers. *)
Theorem malformed_box_iff box src dst rt with_yaw c :
  mode_eq src dst = false ->
  (convert box src dst rt with_yaw c = Raise AssertionError <->
   short_sequence box = true).
Proof.
  intros Hne. unfold convert. rewrite Hne. split.
  - destruct (short_sequence box) eqn:Hs; [reflexivity|].
    rewrite (working_copy_long _ Hs). cbn [bind].
    destruct (convert_arr _ _ _ _ _ _) as [out | e] eqn:Hc; cbn [bind].
    + destruct box; cbn [restore bind]; try discriminate.
      unfold target_type.
      repeat match goal with |- context [if ?b then _ else _] => destruct b end;
        discriminate.
    + intros [= ->]. now apply convert_arr_raises in Hc.
  - intros Hs. now rewrite (working_copy_short _ Hs).
Qed.

Lemma malformed_box_iff_witness :
  convert (BoxList [1; 2; 3; 4; 5]) LIDAR CAM None true false =
    Raise AssertionError <->
  short_sequence (BoxList [1; 2; 3; 4; 5]) = true.
Proof.
  apply (malformed_box_iff (BoxList [1; 2; 3; 4; 5]) LIDAR CAM None true false).
  reflexivity.
Defined.

(** C5. With [src == dst] the function returns its argument: the value it
    was given, whatever it is (nothing is checked), and on objects the
    very same object in an unchanged store (no copy is made). *)
Theorem convert_same_mode box o s X rt with_yaw c :
  convert box X X rt with_yaw c = Ok box /\
  convert_obj o X X rt with_yaw c s = Some (Ok o, s).
Proof.
  unfold convert, convert_obj, mode_eq. rewrite Z.eqb_refl. split; reflexivity.
Qed.

(** C6. On a supported pair and a box with yaw, with [rt_mat] left out,
    the yaw got by rotating the yaw vector and taking [atan2]
    ([correct_yaw=True]) and the yaw of the closed form
    ([correct_yaw=False]) agree up to whole turns, within any tolerance
    [tol >= 0] (so within 1e-5); all other fields are the same. *)
Theorem correct_yaw_agrees box src dst with_yaw tol :
  supported src dst = true ->
  well_formed_box box with_yaw ->
  effective_with_yaw box with_yaw = true ->
  0 <= tol ->
  exists rotated closed,
    convert box src dst None with_yaw true = Ok rotated /\
    convert box src dst None with_yaw false = Ok closed /\
    Forall2 (row_same_but_yaw tol) (rows_of rotated) (rows_of closed).
Proof.
  intros Hsup Hbox Hy Htol.
  destruct (convert_box_rows box src dst None with_yaw true Hbox Hsup
              (default_rt_mat_ok src dst)) as (bt & Ht & Hrt & _).
  destruct (convert_box_rows box src dst None with_yaw false Hbox Hsup
              (default_rt_mat_ok src dst)) as (bf & Hf & Hrf & _).
  exists bt, bf. repeat split; try assumption.
  rewrite Hrt, Hrf, Hy. cbn [or_default].
  apply Forall2_maps_in. intros r Hr.
  pose proof (rows_length _ _ _ Hbox Hr) as Hlen. rewrite Hy in Hlen.
  cbn [min_width] in Hlen.
  pose proof (default_rt_mat_ok src dst) as Hm.
  destruct (convert_row_fields src dst _ true r Hm Hlen) as (F1 & Y1 & E1).
  destruct (convert_row_fields src dst _ false r Hm Hlen) as (F2 & Y2 & E2).
  unfold row_same_but_yaw. rewrite F1, F2, Y1, Y2, E1, E2. repeat split.
  apply cong2pi_yaw_within; [assumption|]. now apply row_yaw_agree.
Qed.

Lemma correct_yaw_agrees_witness :
  exists rotated closed,
    convert (BoxList [1; 2; 3; 4; 5; 6; 0]) LIDAR CAM None true true =
      Ok rotated /\
    convert (BoxList [1; 2; 3; 4; 5; 6; 0]) LIDAR CAM None true false =
      Ok closed /\
    Forall2 (row_same_but_yaw (1 / 100000)) (rows_of rotated) (rows_of closed).
Proof.
  apply (correct_yaw_agrees (BoxList [1; 2; 3; 4; 5; 6; 0]) LIDAR CAM true
           (1 / 100000)).
  - reflexivity.
  - unfold well_formed_box, wf. simpl. repeat split; auto.
  - reflexivity.
  - lra.
Defined.

(** C7. On a supported pair, the three size fields of every output row are
    a permutation of the three size fields of the input row: the same
    numbers, possibly in another order. *)
Theorem sizes_are_permuted box src dst rt with_yaw c :
  supported src dst = true ->
  well_formed_box box with_yaw ->
  rt_ok (or_default rt (default_rt_mat src dst)) ->
  exists box',
    convert box src dst rt with_yaw c = Ok box' /\
    Forall2 (fun r r' => Permutation (sizes_of r) (sizes_of r'))
            (rows_of box) (rows_of box').
Proof.
  intros Hsup Hbox Hrt.
  destruct (convert_box_rows box src dst rt with_yaw c Hbox Hsup Hrt)
    as (box' & Hc & Hrows & _).
  exists box'. split; [assumption|]. rewrite Hrows.
  apply Forall2_map_in. intros r Hr.
  apply convert_row_sizes; [assumption|].
  pose proof (rows_length _ _ _ Hbox Hr) as Hlen.
  destruct (effective_with_yaw box with_yaw); cbn [min_width] in Hlen; lia.
Qed.

Lemma sizes_are_permuted_witness :
  exists box',
    convert (BoxList [1; 2; 3; 4; 5; 6; 0]) LIDAR CAM None true false =
      Ok box' /\
    Forall2 (fun r r' => Permutation (sizes_of r) (sizes_of r'))
            (rows_of (BoxList [1; 2; 3; 4; 5; 6; 0])) (rows_of box').
Proof.
  apply (sizes_are_permuted (BoxList [1; 2; 3; 4; 5; 6; 0]) LIDAR CAM None true
           false).
  - reflexivity.
  - unfold well_formed_box, wf. simpl. repeat split; auto.
  - unfold rt_ok, wf. simpl. repeat split; auto.
Defined.

(** C8. Converting between different modes leaves every buffer of the
    store as it was, the input's among them, whether the call returns or
    raises; and the object it returns refers to a new buffer, not to the
    input's. *)
Theorem convert_keeps_input o src dst rt with_yaw c s p t :
  mode_eq src dst = false ->
  buffer_of o = Some p ->
  nth_error s p = Some t ->
  exists r s',
    convert_obj o src dst rt with_yaw c s = Some (r, s') /\
    nth_error s' p = Some t /\
    (forall q u, nth_error s q = Some u -> nth_error s' q = Some u) /\
    (forall o', r = Ok o' -> buffer_of o' <> Some p).
Proof.
  intros Hne Hb Hp.
  assert (Hv : exists b, value_of s o = Some b).
  { destruct o; cbn [buffer_of] in Hb; try discriminate;
      injection Hb as ->; cbn [value_of]; rewrite Hp; eexists; reflexivity. }
  destruct Hv as [b Hv].
  destruct (convert_obj_refines o b src dst rt with_yaw c s Hv)
    as (r & s' & Hrun & _).
  destruct (convert_obj_extends _ _ _ _ _ _ _ _ _ Hrun) as [ext ->].
  exists r, (s ++ ext). repeat split.
  - exact Hrun.
  - now apply nth_error_extends.
  - intros q u. apply nth_error_extends.
  - intros o' -> Ho'.
    pose proof (convert_obj_fresh _ _ _ _ _ _ _ _ _ _ Hne Hrun Ho') as Hq.
    assert (p < length s)%nat by (apply nth_error_Some; congruence). lia.
Qed.

Lemma convert_keeps_input_witness :
  exists r s',
    convert_obj (ObjTensor 0%nat) LIDAR CAM None true false
                [of_row [1; 2; 3; 4; 5; 6; 0]] = Some (r, s') /\
    nth_error s' 0%nat = Some (of_row [1; 2; 3; 4; 5; 6; 0]) /\
    (forall q u, nth_error [of_row [1; 2; 3; 4; 5; 6; 0]] q = Some u ->
                 nth_error s' q = Some u) /\
    (forall o', r = Ok o' -> buffer_of o' <> Some 0%nat).
Proof.
  apply (convert_keeps_input (ObjTensor 0%nat) LIDAR CAM None true false
           [of_row [1; 2; 3; 4; 5; 6; 0]] 0%nat (of_row [1; 2; 3; 4; 5; 6; 0]));
    reflexivity.
Defined.

(** C9, the claim as stated fails: the entry check of lines 106-109 comes
    before the branches, so a list of three numbers between modes that
    are not a supported pair ends in [AssertionError] (MalformedBox), not
    in [NotImplementedError]. *)
Lemma short_list_fails_before_unsupported_pair :
  mode_eq 3%Z LIDAR = false /\
  supported 3%Z LIDAR = false /\
  convert (BoxList [1; 2; 3]) 3%Z LIDAR None true false =
    Raise AssertionError /\
  convert (BoxList [1; 2; 3]) 3%Z LIDAR None true false <>
    Raise NotImplementedError.
Proof.
  repeat split; try reflexivity. discriminate.
Qed.

(** C9, amended. Between different modes that are not one of the six
    supported pairs no box is returned, on values and on objects alike:
    a box that passes the entry check ends in [NotImplementedError]
    (UnsupportedConversion), and a list or tuple of fewer than seven
    numbers fails the entry check with [AssertionError] (MalformedBox)
    first. *)
Theorem unsupported_pair_raises box src dst rt with_yaw c :
  mode_eq src dst = false ->
  supported src dst = false ->
  (short_sequence box = false ->
   convert box src dst rt with_yaw c = Raise NotImplementedError /\
   forall o s, value_of s o = Some box ->
     exists s', convert_obj o src dst rt with_yaw c s =
                Some (Raise NotImplementedError, s')) /\
  (short_sequence box = true ->
   convert box src dst rt with_yaw c = Raise AssertionError /\
   forall o s, value_of s o = Some box ->
     exists s', convert_obj o src dst rt with_yaw c s =
                Some (Raise AssertionError, s')).
Proof.
  intros Hne Hsup.
  assert (Hobj : forall e, convert box src dst rt with_yaw c = Raise e ->
            forall o s, value_of s o = Some box ->
              exists s', convert_obj o src dst rt with_yaw c s =
                         Some (Raise e, s')).
  { intros e Hc o s Hv.
    destruct (convert_obj_refines o box src dst rt with_yaw c s Hv)
      as (r & s' & Hrun & Hr).
    rewrite Hc in Hr. subst r. now exists s'. }
  split; intros Hs.
  - assert (Hc : convert box src dst rt with_yaw c = Raise NotImplementedError).
    { unfold convert. rewrite Hne, (working_copy_long _ Hs). cbn [bind].
      unfold convert_arr, convert_parts.
      now rewrite (select_branch_supported _ _ _ _ _ _ Hsup). }
    split; [exact Hc | exact (Hobj _ Hc)].
  - assert (Hc : convert box src dst rt with_yaw c = Raise AssertionError).
    { unfold convert. rewrite Hne. now rewrite (working_copy_short _ Hs). }
    split; [exact Hc | exact (Hobj _ Hc)].
Qed.

Lemma unsupported_pair_raises_witness :
  convert (BoxList [1; 2; 3; 4; 5; 6; 0]) 3%Z LIDAR None true false =
    Raise NotImplementedError /\
  forall o s, value_of s o = Some (BoxList [1; 2; 3; 4; 5; 6; 0]) ->
    exists s', convert_obj o 3%Z LIDAR None true false s =
               Some (Raise NotImplementedError, s').
Proof.
  apply (proj1 (unsupported_pair_raises (BoxList [1; 2; 3; 4; 5; 6; 0]) 3%Z
                  LIDAR None true false eq_refl eq_refl)).
  reflexivity.
Defined.

Lemma rotated_yaw_block dst m m' v :
  slice_block 3 3 m = slice_block 3 3 m' ->
  rotated_yaw dst m v = rotated_yaw dst m' v.
Proof.
  intros H. unfold rotated_yaw.
  change (map (firstn 3) (firstn 3 (data m))) with (data (slice_block 3 3 m)).
  change (map (firstn 3) (firstn 3 (data m'))) with (data (slice_block 3 3 m')).
  now rewrite H.
Qed.

(** C10. With [correct_yaw=True] the output yaw is a function of the 3x3
    block of [rt_mat] and of the input yaw alone: two calls whose matrices
    (three rows of three or four numbers) share that block and whose boxes
    share their yaws return the same yaws, whatever the fourth, translation
    column of either matrix and the other fields of the boxes are. *)
Theorem yaw_ignores_translation box1 box2 src dst m1 m2 with_yaw :
  supported src dst = true ->
  well_formed_box box1 with_yaw ->
  well_formed_box box2 with_yaw ->
  effective_with_yaw box1 with_yaw = true ->
  effective_with_yaw box2 with_yaw = true ->
  rt_ok m1 -> rt_ok m2 ->
  slice_block 3 3 m1 = slice_block 3 3 m2 ->
  yaw_column box1 = yaw_column box2 ->
  exists out1 out2,
    convert box1 src dst (Some m1) with_yaw true = Ok out1 /\
    convert box2 src dst (Some m2) with_yaw true = Ok out2 /\
    yaw_column out1 = yaw_column out2.
Proof.
  intros Hsup Hb1 Hb2 Hy1 Hy2 Hm1 Hm2 Hblock Hyaw.
  destruct (convert_box_rows box1 src dst (Some m1) with_yaw true Hb1 Hsup Hm1)
    as (o1 & Hc1 & Hr1 & _).
  destruct (convert_box_rows box2 src dst (Some m2) with_yaw true Hb2 Hsup Hm2)
    as (o2 & Hc2 & Hr2 & _).
  exists o1, o2. repeat split; try assumption.
  assert (Hcol : forall box m, rt_ok m -> well_formed_box box with_yaw ->
            effective_with_yaw box with_yaw = true ->
            map (fun r => nth 6 r 0)
                (map (convert_row src dst m true true) (rows_of box)) =
            map (fun y => rotated_yaw dst m (yaw_vec src y)) (yaw_column box)).
  { intros box m Hm Hb Hy. unfold yaw_column. rewrite !map_map.
    apply map_ext_in. intros r Hr.
    pose proof (rows_length _ _ _ Hb Hr) as Hlen. rewrite Hy in Hlen.
    now destruct (convert_row_fields src dst m true r Hm Hlen) as (_ & Y & _). }
  unfold yaw_column at 1 2. rewrite Hr1, Hr2, Hy1, Hy2. cbn [or_default].
  rewrite (Hcol box1 m1 Hm1 Hb1 Hy1), (Hcol box2 m2 Hm2 Hb2 Hy2), Hyaw.
  apply map_ext. intros y. now apply rotated_yaw_block.
Qed.

Lemma yaw_ignores_translation_witness :
  exists out1 out2,
    convert (BoxList [1; 2; 3; 4; 5; 6; 0]) LIDAR CAM
            (Some (mkTensor 3 4 [[0; -1; 0; 0]; [0; 0; -1; 0]; [1; 0; 0; 0]]))
            true true = Ok out1 /\
    convert (BoxList [9; 8; 7; 6; 5; 4; 0]) LIDAR CAM
            (Some (mkTensor 3 4 [[0; -1; 0; 1]; [0; 0; -1; 2]; [1; 0; 0; 3]]))
            true true = Ok out2 /\
    yaw_column out1 = yaw_column out2.
Proof.
  apply (yaw_ignores_translation
           (BoxList [1; 2; 3; 4; 5; 6; 0]) (BoxList [9; 8; 7; 6; 5; 4; 0])
           LIDAR CAM
           (mkTensor 3 4 [[0; -1; 0; 0]; [0; 0; -1; 0]; [1; 0; 0; 0]])
           (mkTensor 3 4 [[0; -1; 0; 1]; [0; 0; -1; 2]; [1; 0; 0; 3]])
           true).
  - reflexivity.
  - unfold well_formed_box, wf. simpl. repeat split; auto.
  - unfold well_formed_box, wf. simpl. repeat split; auto.
  - reflexivity.
  - reflexivity.
  - unfold rt_ok, wf. simpl. repeat split; auto.
  - unfold rt_ok, wf. simpl. repeat split; auto.
  - reflexivity.
  - reflexivity.
Defined.

(** The translation column does move the center: the same box through two
    matrices with the same 3x3 block. *)
Example translation_moves_center :
  exists out1 out2,
    convert (BoxList [1; 2; 3; 4; 5; 6; 0]) LIDAR CAM
            (Some (mkTensor 3 4 [[0; -1; 0; 0]; [0; 0; -1; 0]; [1; 0; 0; 0]]))
            true true = Ok out1 /\
    convert (BoxList [1; 2; 3; 4; 5; 6; 0]) LIDAR CAM
            (Some (mkTensor 3 4 [[0; -1; 0; 1]; [0; 0; -1; 2]; [1; 0; 0; 3]]))
            true true = Ok out2 /\
    firstn 3 (numbers out1) = [-2; -3; 1] /\
    firstn 3 (numbers out2) = [-1; -1; 4].
Proof.
  eexists. eexists.
  split; [run_convert; reflexivity|].
  split; [run_convert; reflexivity|].
  split; run_convert; repeat (f_equal; try ring).
Qed.

(** * Further properties of [convert] *)

(** ** Conversions in a row *)

Lemma supported_trans a b c :
  supported a b = true -> supported b c = true -> mode_eq a c = false ->
  supported a c = true.
Proof.
  intros Hab Hbc Hac.
  destruct (supported_cases _ _ Hab)
    as [[-> ->]|[[-> ->]|[[-> ->]|[[-> ->]|[[-> ->]|[-> ->]]]]]];
    destruct (supported_cases _ _ Hbc)
    as [[E ->]|[[E ->]|[[E ->]|[[E ->]|[[E ->]|[E ->]]]]]];
    try discriminate E; try discriminate Hac; reflexivity.
Qed.

(** The closed-form angles of two conversions in a row add up to the
    angle of the direct one. *)
Lemma fixup_angle_compose a b c y y' :
  supported a b = true -> supported b c = true -> mode_eq a c = false ->
  cong2pi y' (fixup_angle a b y) ->
  cong2pi (fixup_angle b c y') (fixup_angle a c y).
Proof.
  intros Hab Hbc Hac [k ->].
  destruct (supported_cases _ _ Hab)
    as [[-> ->]|[[-> ->]|[[-> ->]|[[-> ->]|[[-> ->]|[-> ->]]]]]];
    destruct (supported_cases _ _ Hbc)
    as [[E ->]|[[E ->]|[[E ->]|[[E ->]|[[E ->]|[E ->]]]]]];
    try discriminate E; try discriminate Hac;
    cbv [fixup_angle depth_cam mode_eq LIDAR CAM DEPTH Z.eqb Pos.eqb andb orb];
    first [ exists k; lra | exists (- k)%Z; rewrite opp_IZR; lra ].
Qed.

Lemma convert_row_compose a b c wy cy r :
  supported a b = true -> supported b c = true -> mode_eq a c = false ->
  (min_width wy <= length r)%nat ->
  let via := convert_row b c (default_rt_mat b c) wy cy
               (convert_row a b (default_rt_mat a b) wy cy r) in
  let direct := convert_row a c (default_rt_mat a c) wy cy r in
  if wy
  then firstn 6 via = firstn 6 direct /\
       cong2pi (nth 6 via 0) (nth 6 direct 0) /\
       skipn 7 via = skipn 7 direct
  else via = direct.
Proof.
  intros Hab Hbc Hac Hlen.
  pose proof (supported_trans _ _ _ Hab Hbc Hac) as Hsup.
  assert (Hyaw : forall y,
    cong2pi (row_yaw b c (default_rt_mat b c) cy
               (row_yaw a b (default_rt_mat a b) cy y))
            (row_yaw a c (default_rt_mat a c) cy y)).
  { intros y. eapply cong2pi_trans; [apply row_yaw_angle, Hbc|].
    eapply cong2pi_trans.
    - apply (fixup_angle_compose a b c y); try assumption.
      now apply row_yaw_angle.
    - apply cong2pi_sym. now apply row_yaw_angle. }
  destruct r as [|a0 [|a1 [|a2 [|a3 [|a4 [|a5 r]]]]]];
    try (destruct wy; simpl in Hlen; lia).
  destruct wy.
  - destruct r as [|a6 r]; [simpl in Hlen; lia|].
    specialize (Hyaw a6).
    destruct (supported_cases _ _ Hab)
      as [[-> ->]|[[-> ->]|[[-> ->]|[[-> ->]|[[-> ->]|[-> ->]]]]]];
      destruct (supported_cases _ _ Hbc)
      as [[E ->]|[[E ->]|[[E ->]|[[E ->]|[[E ->]|[E ->]]]]]];
      try discriminate E; try discriminate Hac;
      row_eval; row_eval; (split; [| split; [exact Hyaw | reflexivity]]);
      repeat (f_equal; try ring).
  - destruct (supported_cases _ _ Hab)
      as [[-> ->]|[[-> ->]|[[-> ->]|[[-> ->]|[[-> ->]|[-> ->]]]]]];
      destruct (supported_cases _ _ Hbc)
      as [[E ->]|[[E ->]|[[E ->]|[[E ->]|[[E ->]|[E ->]]]]]];
      try discriminate E; try discriminate Hac;
      row_eval; row_eval; repeat (f_equal; try ring).
Qed.

(** X1. Two conversions in a row, [a] to [b] and [b] to [c], give what
    the direct conversion from [a] to [c] gives, with the default
    matrices and either value of [correct_yaw]: the same centers, sizes
    and other fields, and yaws equal up to whole turns (within every
    tolerance [tol >= 0]). *)
Theorem convert_composes box a b c with_yaw cy tol :
  supported a b = true ->
  supported b c = true ->
  mode_eq a c = false ->
  well_formed_box box with_yaw ->
  0 <= tol ->
  exists mid via direct,
    convert box a b None with_yaw cy = Ok mid /\
    convert mid b c None with_yaw cy = Ok via /\
    convert box a c None with_yaw cy = Ok direct /\
    Forall2 (row_agrees tol (effective_with_yaw box with_yaw))
            (rows_of via) (rows_of direct).
Proof.
  intros Hab Hbc Hac Hbox Htol.
  pose proof (supported_trans _ _ _ Hab Hbc Hac) as Hsup.
  destruct (convert_box_rows box a b None with_yaw cy Hbox Hab
              (default_rt_mat_ok a b)) as (mid & Hmid & Hr1 & Hwf & Hy).
  destruct (convert_box_rows mid b c None with_yaw cy Hwf Hbc
              (default_rt_mat_ok b c)) as (via & Hvia & Hr2 & _).
  destruct (convert_box_rows box a c None with_yaw cy Hbox Hsup
              (default_rt_mat_ok a c)) as (direct & Hdir & Hr3 & _).
  exists mid, via, direct. repeat split; try assumption.
  rewrite Hr2, Hr1, Hr3, Hy, map_map. cbn [or_default].
  apply Forall2_maps_in. intros r Hr.
  pose proof (rows_length _ _ _ Hbox Hr) as Hlen.
  pose proof (convert_row_compose a b c _ cy r Hab Hbc Hac Hlen) as H.
  cbv zeta in H. unfold row_agrees, row_same_but_yaw.
  destruct (effective_with_yaw box with_yaw).
  - destruct H as (H1 & H2 & H3). repeat split; auto using cong2pi_yaw_within.
  - exact H.
Qed.

Lemma convert_composes_witness :
  exists mid via direct,
    convert (BoxList [1; 2; 3; 4; 5; 6; 0]) LIDAR DEPTH None true true = Ok mid /\
    convert mid DEPTH CAM None true true = Ok via /\
    convert (BoxList [1; 2; 3; 4; 5; 6; 0]) LIDAR CAM None true true = Ok direct /\
    Forall2 (row_agrees (1 / 100000) true) (rows_of via) (rows_of direct).
Proof.
  apply (convert_composes (BoxList [1; 2; 3; 4; 5; 6; 0]) LIDAR DEPTH CAM true
           true (1 / 100000)).
  - reflexivity.
  - reflexivity.
  - reflexivity.
  - unfold well_formed_box, wf. simpl. repeat split; auto.
  - lra.
Defined.

(** ** The buffer of the result *)

(** [convert] on a well-formed box: the buffer of the result has the
    shape of the input's and [convert_row] of its rows. *)
Lemma convert_box_tensor box src dst rt with_yaw c :
  well_formed_box box with_yaw ->
  supported src dst = true ->
  rt_ok (or_default rt (default_rt_mat src dst)) ->
  exists box',
    convert box src dst rt with_yaw c = Ok box' /\
    box_tensor box' =
      rowwise (box_tensor box) (size1 (box_tensor box))
        (convert_row src dst (or_default rt (default_rt_mat src dst))
                     (effective_with_yaw box with_yaw) c) /\
    single_box box' = single_box box.
Proof.
  intros Hbox Hsup Hrt. pose proof Hbox as (Hwf & Hw & Hs).
  unfold convert. rewrite (supported_neq _ _ Hsup).
  rewrite (working_copy_ok _ _ Hbox). cbn [bind].
  rewrite (convert_arr_rows _ _ _ _ _ _ Hwf Hw Hsup Hrt). cbn [bind].
  set (m := or_default rt _) in *.
  set (y := effective_with_yaw box with_yaw) in *.
  destruct (target_type_known dst (supported_known_dst _ _ Hsup)) as [cl Hcl].
  destruct box as [l | l | a | t | k hy t]; cbn [restore bind]; try rewrite Hcl;
    cbn [bind]; eexists; (split; [reflexivity|]); (split; [| reflexivity]);
    try reflexivity.
  all: unfold flatten, rowwise;
    cbn [box_tensor of_row data size0 size1 concat map];
    rewrite app_nil_r; unfold of_row; f_equal;
    apply convert_row_length; [exact Hrt | exact Hw].
Qed.

(** X2. On a supported pair, a well-formed box and the default or any
    3x3 or 3x4 [rt_mat], the result has as many rows and as many fields
    per row as the input, and every field after the yaw (after the sizes,
    for a box without yaw) is the input's, in place. *)
Theorem convert_keeps_shape_and_extras box src dst rt with_yaw c :
  supported src dst = true ->
  well_formed_box box with_yaw ->
  rt_ok (or_default rt (default_rt_mat src dst)) ->
  exists box',
    convert box src dst rt with_yaw c = Ok box' /\
    size0 (box_tensor box') = size0 (box_tensor box) /\
    size1 (box_tensor box') = size1 (box_tensor box) /\
    wf (box_tensor box') /\
    map (extras_of (effective_with_yaw box with_yaw)) (rows_of box') =
    map (extras_of (effective_with_yaw box with_yaw)) (rows_of box).
Proof.
  intros Hsup Hbox Hrt.
  destruct (convert_box_tensor box src dst rt with_yaw c Hbox Hsup Hrt)
    as (box' & Hc & Ht & _).
  destruct (convert_box_rows box src dst rt with_yaw c Hbox Hsup Hrt)
    as (box'' & Hc' & Hrows & (Hwf' & _) & _).
  rewrite Hc in Hc'. injection Hc' as <-.
  exists box'. split; [assumption|]. rewrite Ht at 1 2. cbn [rowwise size0 size1].
  split; [reflexivity|]. split; [reflexivity|]. split; [assumption|].
  rewrite Hrows, map_map. apply map_ext_in. intros r Hr.
  pose proof (rows_length _ _ _ Hbox Hr) as Hlen.
  destruct (rt_ok_rows _ Hrt) as (m0 & m1 & m2 & Hd).
  unfold extras_of, convert_row, row_xyz, row_sizes. rewrite Hd.
  destruct (effective_with_yaw box with_yaw), (lidar_depth src dst);
    reflexivity.
Qed.

Lemma convert_keeps_shape_and_extras_witness :
  exists box',
    convert (BoxTensor (mkTensor 2 9 [[1; 2; 3; 4; 5; 6; 0; 8; 9];
                                       [9; 8; 7; 6; 5; 4; 1; 2; 3]]))
            CAM LIDAR None true false = Ok box' /\
    size0 (box_tensor box') = 2%nat /\
    size1 (box_tensor box') = 9%nat /\
    wf (box_tensor box') /\
    map (extras_of true) (rows_of box') = [[8; 9]; [2; 3]].
Proof.
  apply (convert_keeps_shape_and_extras
           (BoxTensor (mkTensor 2 9 [[1; 2; 3; 4; 5; 6; 0; 8; 9];
                                     [9; 8; 7; 6; 5; 4; 1; 2; 3]]))
           CAM LIDAR None true false).
  - reflexivity.
  - unfold well_formed_box, wf. simpl. repeat split; auto.
  - unfold rt_ok, wf. simpl. repeat split; auto.
Defined.

(** ** Rows alone, matrices and centers *)

Lemma of_row_ok with_yaw r :
  (min_width with_yaw <= length r)%nat ->
  well_formed_box (BoxTensor (of_row r)) with_yaw.
Proof.
  intros H. unfold well_formed_box, wf.
  cbn [box_tensor of_row data size0 size1 single_box effective_with_yaw length].
  repeat split; auto. discriminate.
Qed.

(** X3. A batch is converted row by row: each row of the result is what
    [convert] returns for the corresponding input row taken alone as a
    one-row tensor. *)
Theorem convert_row_by_row box src dst rt with_yaw c :
  supported src dst = true ->
  well_formed_box box with_yaw ->
  rt_ok (or_default rt (default_rt_mat src dst)) ->
  exists box',
    convert box src dst rt with_yaw c = Ok box' /\
    Forall2 (fun r r' =>
               convert (BoxTensor (of_row r)) src dst rt
                       (effective_with_yaw box with_yaw) c =
               Ok (BoxTensor (of_row r')))
            (rows_of box) (rows_of box').
Proof.
  intros Hsup Hbox Hrt.
  destruct (convert_box_rows box src dst rt with_yaw c Hbox Hsup Hrt)
    as (box' & Hc & Hrows & _).
  exists box'. split; [assumption|]. rewrite Hrows.
  apply Forall2_map_in. intros r Hr.
  pose proof (rows_length _ _ _ Hbox Hr) as Hlen.
  set (y := effective_with_yaw box with_yaw) in *.
  pose proof (of_row_ok y r Hlen) as Hone.
  destruct (convert_box_tensor _ src dst rt y c Hone Hsup Hrt)
    as (one & Hc1 & Ht & _).
  rewrite Hc1. unfold convert in Hc1. rewrite (supported_neq _ _ Hsup) in Hc1.
  cbn [working_copy bind effective_with_yaw restore] in Hc1.
  destruct (convert_arr _ _ _ _ _ _) as [out |]; cbn [bind] in Hc1;
    [| discriminate].
  injection Hc1 as <-. cbn [box_tensor effective_with_yaw] in Ht.
  rewrite Ht. unfold rowwise, of_row. cbn [data size0 size1 map]. do 3 f_equal.
  symmetry. now apply convert_row_length.
Qed.

Lemma convert_row_by_row_witness :
  exists box',
    convert (BoxTensor (mkTensor 2 7 [[1; 2; 3; 4; 5; 6; 0];
                                       [9; 8; 7; 6; 5; 4; 1]]))
            LIDAR CAM None true false = Ok box' /\
    Forall2 (fun r r' =>
               convert (BoxTensor (of_row r)) LIDAR CAM None true false =
               Ok (BoxTensor (of_row r')))
            [[1; 2; 3; 4; 5; 6; 0]; [9; 8; 7; 6; 5; 4; 1]] (rows_of box').
Proof.
  apply (convert_row_by_row
           (BoxTensor (mkTensor 2 7 [[1; 2; 3; 4; 5; 6; 0];
                                     [9; 8; 7; 6; 5; 4; 1]]))
           LIDAR CAM None true false).
  - reflexivity.
  - unfold well_formed_box, wf. simpl. repeat split; auto.
  - unfold rt_ok, wf. simpl. repeat split; auto.
Defined.

Lemma convert_row_tail src dst m with_yaw r :
  rt_ok m ->
  skipn 3 (convert_row src dst m with_yaw false r) =
  row_sizes src dst r ++
  (if with_yaw then fixup src dst (nth 6 r 0) :: skipn 7 r else skipn 6 r).
Proof.
  intros Hm. destruct (rt_ok_rows _ Hm) as (m0 & m1 & m2 & Hd).
  unfold convert_row, row_xyz, row_yaw. rewrite Hd. reflexivity.
Qed.

(** X4. With [correct_yaw=False] the matrix moves the center and nothing
    else: two calls that differ only in [rt_mat] (default, 3x3 or 3x4)
    return the same sizes, the same yaw and the same other fields. *)
Theorem rt_mat_moves_center_only box src dst rt1 rt2 with_yaw :
  supported src dst = true ->
  well_formed_box box with_yaw ->
  rt_ok (or_default rt1 (default_rt_mat src dst)) ->
  rt_ok (or_default rt2 (default_rt_mat src dst)) ->
  exists out1 out2,
    convert box src dst rt1 with_yaw false = Ok out1 /\
    convert box src dst rt2 with_yaw false = Ok out2 /\
    map (skipn 3) (rows_of out1) = map (skipn 3) (rows_of out2).
Proof.
  intros Hsup Hbox H1 H2.
  destruct (convert_box_rows box src dst rt1 with_yaw false Hbox Hsup H1)
    as (o1 & Hc1 & Hr1 & _).
  destruct (convert_box_rows box src dst rt2 with_yaw false Hbox Hsup H2)
    as (o2 & Hc2 & Hr2 & _).
  exists o1, o2. repeat split; try assumption.
  rewrite Hr1, Hr2, !map_map. apply map_ext. intros r.
  now rewrite !convert_row_tail.
Qed.

Lemma rt_mat_moves_center_only_witness :
  exists out1 out2,
    convert (BoxList [1; 2; 3; 4; 5; 6; 0]) LIDAR CAM None true false =
      Ok out1 /\
    convert (BoxList [1; 2; 3; 4; 5; 6; 0]) LIDAR CAM
            (Some (mkTensor 3 4 [[1; 0; 0; 5]; [0; 1; 0; 6]; [0; 0; 1; 7]]))
            true false = Ok out2 /\
    map (skipn 3) (rows_of out1) = map (skipn 3) (rows_of out2).
Proof.
  apply (rt_mat_moves_center_only (BoxList [1; 2; 3; 4; 5; 6; 0]) LIDAR CAM
           None
           (Some (mkTensor 3 4 [[1; 0; 0; 5]; [0; 1; 0; 6]; [0; 0; 1; 7]]))
           true).
  - reflexivity.
  - unfold well_formed_box, wf. simpl. repeat split; auto.
  - unfold rt_ok, wf. simpl. repeat split; auto.
  - unfold rt_ok, wf. simpl. repeat split; auto.
Defined.

Lemma rt_ok_four m :
  rt_ok m -> size1 m = 4%nat ->
  exists a0 a1 a2 a3 b0 b1 b2 b3 c0 c1 c2 c3,
    data m = [[a0; a1; a2; a3]; [b0; b1; b2; b3]; [c0; c1; c2; c3]].
Proof.
  intros Hm H4. destruct (rt_ok_rows _ Hm) as (m0 & m1 & m2 & Hd).
  destruct Hm as ((_ & Hrows) & _). rewrite Hd, H4 in Hrows.
  inversion Hrows as [| ? ? L0 Hrows1]; subst.
  inversion Hrows1 as [| ? ? L1 Hrows2]; subst.
  inversion Hrows2 as [| ? ? L2 _]; subst.
  destruct m0 as [|a0 [|a1 [|a2 [|a3 [|]]]]]; try discriminate.
  destruct m1 as [|b0 [|b1 [|b2 [|b3 [|]]]]]; try discriminate.
  destruct m2 as [|c0 [|c1 [|c2 [|c3 [|]]]]]; try discriminate.
  rewrite Hd. repeat eexists.
Qed.

Lemma slice_block_ok m : rt_ok m -> size1 m = 4%nat -> rt_ok (slice_block 3 3 m).
Proof.
  intros Hm H4.
  destruct (rt_ok_four m Hm H4)
    as (a0 & a1 & a2 & a3 & b0 & b1 & b2 & b3 & c0 & c1 & c2 & c3 & Hd).
  destruct Hm as (_ & H0 & _).
  unfold rt_ok, wf, slice_block. rewrite Hd, H0, H4. simpl.
  repeat split; auto.
Qed.

(** X5. The fourth column of a 3x4 matrix is a translation of the center:
    the result with the matrix is the result with its 3x3 block, each
    center shifted by that column; sizes, yaw and other fields are the
    same, for either value of [correct_yaw]. *)
Theorem fourth_column_translates box src dst m with_yaw c :
  supported src dst = true ->
  well_formed_box box with_yaw ->
  rt_ok m ->
  size1 m = 4%nat ->
  exists rotated moved,
    convert box src dst (Some (slice_block 3 3 m)) with_yaw c = Ok rotated /\
    convert box src dst (Some m) with_yaw c = Ok moved /\
    Forall2 (fun r r' =>
               center_of r' = zip_with Rplus (center_of r) (translation m) /\
               skipn 3 r' = skipn 3 r)
            (rows_of rotated) (rows_of moved).
Proof.
  intros Hsup Hbox Hm H4.
  pose proof (slice_block_ok m Hm H4) as Hm3.
  destruct (convert_box_rows box src dst (Some (slice_block 3 3 m)) with_yaw c
              Hbox Hsup Hm3) as (o3 & Hc3 & Hr3 & _).
  destruct (convert_box_rows box src dst (Some m) with_yaw c Hbox Hsup Hm)
    as (o4 & Hc4 & Hr4 & _).
  exists o3, o4. repeat split; try assumption.
  rewrite Hr3, Hr4. cbn [or_default]. apply Forall2_maps_in. intros r Hr.
  pose proof (rows_length _ _ _ Hbox Hr) as Hlen.
  destruct (rt_ok_four m Hm H4)
    as (a0 & a1 & a2 & a3 & b0 & b1 & b2 & b3 & c0 & c1 & c2 & c3 & Hd).
  destruct r as [|x0 [|x1 [|x2 r]]];
    try (destruct (effective_with_yaw box with_yaw); simpl in Hlen; lia).
  unfold center_of, translation, convert_row, row_xyz, row_yaw, rotated_yaw,
    slice_block.
  rewrite Hd, H4.
  cbn [data size1 Nat.eqb Nat.min map firstn app dot nth skipn zip_with].
  split; [| reflexivity].
  repeat (apply f_equal2; [ring|]). reflexivity.
Qed.

Lemma fourth_column_translates_witness :
  exists rotated moved,
    convert (BoxList [1; 2; 3; 4; 5; 6; 0]) LIDAR CAM
            (Some (slice_block 3 3
                     (mkTensor 3 4 [[0; -1; 0; 5]; [0; 0; -1; 6]; [1; 0; 0; 7]])))
            true true = Ok rotated /\
    convert (BoxList [1; 2; 3; 4; 5; 6; 0]) LIDAR CAM
            (Some (mkTensor 3 4 [[0; -1; 0; 5]; [0; 0; -1; 6]; [1; 0; 0; 7]]))
            true true = Ok moved /\
    Forall2 (fun r r' =>
               center_of r' = zip_with Rplus (center_of r) [5; 6; 7] /\
               skipn 3 r' = skipn 3 r)
            (rows_of rotated) (rows_of moved).
Proof.
  apply (fourth_column_translates (BoxList [1; 2; 3; 4; 5; 6; 0]) LIDAR CAM
           (mkTensor 3 4 [[0; -1; 0; 5]; [0; 0; -1; 6]; [1; 0; 0; 7]])
           true true).
  - reflexivity.
  - unfold well_formed_box, wf. simpl. repeat split; auto.
  - unfold rt_ok, wf. simpl. repeat split; auto.
  - reflexivity.
Defined.

(** ** The default matrices are rigid *)

Lemma convert_row_sq_dist src dst with_yaw c r1 r2 :
  supported src dst = true ->
  (min_width with_yaw <= length r1)%nat ->
  (min_width with_yaw <= length r2)%nat ->
  sq_dist (center_of (convert_row src dst (default_rt_mat src dst) with_yaw c r1))
          (center_of (convert_row src dst (default_rt_mat src dst) with_yaw c r2)) =
  sq_dist (center_of r1) (center_of r2).
Proof.
  intros Hsup H1 H2.
  destruct r1 as [|x0 [|x1 [|x2 r1]]]; try (destruct with_yaw; simpl in H1; lia).
  destruct r2 as [|y0 [|y1 [|y2 r2]]]; try (destruct with_yaw; simpl in H2; lia).
  destruct (supported_cases _ _ Hsup)
    as [[-> ->]|[[-> ->]|[[-> ->]|[[-> ->]|[[-> ->]|[-> ->]]]]]];
    unfold sq_dist, center_of, convert_row, row_xyz;
    cbv [default_rt_mat mat3 mode_eq LIDAR CAM DEPTH Z.eqb Pos.eqb andb orb
         Nat.eqb size1 data map dot firstn app zip_with];
    ring.
Qed.

(** X6. With the default matrix the centers move rigidly: the distance
    between the centers of any two rows of the result is the distance
    between the centers of the same two rows of the input. *)
Theorem default_conversion_keeps_distances box src dst with_yaw c i j :
  supported src dst = true ->
  well_formed_box box with_yaw ->
  (i < length (rows_of box))%nat ->
  (j < length (rows_of box))%nat ->
  exists box',
    convert box src dst None with_yaw c = Ok box' /\
    sq_dist (center_of (nth i (rows_of box') []))
            (center_of (nth j (rows_of box') [])) =
    sq_dist (center_of (nth i (rows_of box) []))
            (center_of (nth j (rows_of box) [])).
Proof.
  intros Hsup Hbox Hi Hj.
  destruct (convert_box_rows box src dst None with_yaw c Hbox Hsup
              (default_rt_mat_ok src dst)) as (box' & Hc & Hrows & _).
  exists box'. split; [assumption|]. rewrite Hrows. cbn [or_default].
  set (f := convert_row _ _ _ _ _).
  rewrite (nth_indep (map f _) [] (f [])) by (now rewrite length_map).
  rewrite (nth_indep (map f _) [] (f [])) by (now rewrite length_map).
  rewrite !map_nth. unfold f.
  apply convert_row_sq_dist; [assumption | |];
    eapply rows_length; try eassumption; now apply nth_In.
Qed.

Lemma default_conversion_keeps_distances_witness :
  exists box',
    convert (BoxTensor (mkTensor 2 7 [[1; 2; 3; 4; 5; 6; 0];
                                       [9; 8; 7; 6; 5; 4; 1]]))
            LIDAR CAM None true false = Ok box' /\
    sq_dist (center_of (nth 0 (rows_of box') []))
            (center_of (nth 1 (rows_of box') [])) =
    sq_dist [1; 2; 3] [9; 8; 7].
Proof.
  apply (default_conversion_keeps_distances
           (BoxTensor (mkTensor 2 7 [[1; 2; 3; 4; 5; 6; 0];
                                     [9; 8; 7; 6; 5; 4; 1]]))
           LIDAR CAM true false 0%nat 1%nat).
  - reflexivity.
  - unfold well_formed_box, wf. simpl. repeat split; auto.
  - simpl. lia.
  - simpl. lia.
Defined.

(** ** A rotation about the vertical axis *)

Lemma rot_z_ok phi : rt_ok (rot_z phi).
Proof. unfold rt_ok, wf, rot_z, mat3. simpl. repeat split; auto. Qed.

Lemma lidar_depth_supported src dst :
  lidar_depth src dst = true -> supported src dst = true.
Proof.
  unfold lidar_depth, supported. intros H.
  apply orb_true_iff in H. destruct H as [-> | ->];
    rewrite ?orb_true_r; reflexivity.
Qed.

Lemma lidar_depth_cases src dst :
  lidar_depth src dst = true ->
  (src = LIDAR /\ dst = DEPTH) \/ (src = DEPTH /\ dst = LIDAR).
Proof.
  unfold lidar_depth, mode_eq. intros H.
  apply orb_true_iff in H. destruct H as [H | H];
    apply andb_true_iff in H; destruct H as [H1 H2];
    apply Z.eqb_eq in H1, H2; tauto.
Qed.

Lemma rotated_yaw_rot_z src dst phi y :
  lidar_depth src dst = true ->
  cong2pi (rotated_yaw dst (rot_z phi) (yaw_vec src y)) (y + phi).
Proof.
  intros H. destruct (lidar_depth_cases _ _ H) as [[-> ->] | [-> ->]];
    unfold rotated_yaw, yaw_vec, rot_z;
    cbv [mat3 mode_eq LIDAR CAM DEPTH Z.eqb Pos.eqb data map firstn dot nth];
    apply atan2_of_angle; rewrite ?sin_plus, ?cos_plus; ring.
Qed.

(** X7. With [correct_yaw=True] the yaw follows the matrix: between
    LIDAR and DEPTH, a matrix that rotates by [phi] about the vertical
    axis turns each center by [phi] and gives each yaw plus [phi], up to
    whole turns (within every tolerance [tol >= 0]). *)
Theorem correct_yaw_follows_rotation box src dst phi with_yaw tol :
  lidar_depth src dst = true ->
  well_formed_box box with_yaw ->
  effective_with_yaw box with_yaw = true ->
  0 <= tol ->
  exists box',
    convert box src dst (Some (rot_z phi)) with_yaw true = Ok box' /\
    Forall2 (fun r r' =>
               center_of r' =
                 [nth 0 r 0 * cos phi - nth 1 r 0 * sin phi;
                  nth 0 r 0 * sin phi + nth 1 r 0 * cos phi;
                  nth 2 r 0] /\
               yaw_within tol (nth 6 r' 0) (nth 6 r 0 + phi))
            (rows_of box) (rows_of box').
Proof.
  intros Hld Hbox Hy Htol.
  pose proof (lidar_depth_supported _ _ Hld) as Hsup.
  destruct (convert_box_rows box src dst (Some (rot_z phi)) with_yaw true Hbox
              Hsup (rot_z_ok phi)) as (box' & Hc & Hrows & _).
  exists box'. split; [assumption|]. rewrite Hrows, Hy. cbn [or_default].
  apply Forall2_map_in. intros r Hr.
  pose proof (rows_length _ _ _ Hbox Hr) as Hlen. rewrite Hy in Hlen.
  cbn [min_width] in Hlen.
  destruct (convert_row_fields src dst (rot_z phi) true r (rot_z_ok phi) Hlen)
    as (_ & Y & _).
  rewrite Y. split.
  - destruct r as [|x0 [|x1 [|x2 r]]]; try (simpl in Hlen; lia).
    unfold center_of, convert_row, row_xyz, rot_z.
    cbv [mat3 Nat.eqb size1 data map dot firstn app nth].
    repeat (apply f_equal2; [ring|]). reflexivity.
  - apply cong2pi_yaw_within; [assumption|]. unfold row_yaw.
    now apply rotated_yaw_rot_z.
Qed.

Lemma correct_yaw_follows_rotation_witness :
  exists box',
    convert (BoxList [1; 2; 3; 4; 5; 6; 0]) LIDAR DEPTH (Some (rot_z 1)) true
            true = Ok box' /\
    Forall2 (fun r r' =>
               center_of r' =
                 [nth 0 r 0 * cos 1 - nth 1 r 0 * sin 1;
                  nth 0 r 0 * sin 1 + nth 1 r 0 * cos 1;
                  nth 2 r 0] /\
               yaw_within (1 / 100000) (nth 6 r' 0) (nth 6 r 0 + 1))
            (rows_of (BoxList [1; 2; 3; 4; 5; 6; 0])) (rows_of box').
Proof.
  apply (correct_yaw_follows_rotation (BoxList [1; 2; 3; 4; 5; 6; 0]) LIDAR
           DEPTH 1 true (1 / 100000)).
  - reflexivity.
  - unfold well_formed_box, wf. simpl. repeat split; auto.
  - reflexivity.
  - lra.
Defined.

(** ** Buffers narrower than a box *)

Lemma convert_row_clamped_length src dst with_yaw r :
  (3 <= length r)%nat ->
  length (convert_row_clamped src dst with_yaw r) = length r.
Proof.
  intros Hr. destruct (rt_ok_rows _ (default_rt_mat_ok src dst))
    as (m0 & m1 & m2 & Hd).
  unfold convert_row_clamped, row_xyz, sizes_clamped. rewrite Hd.
  destruct with_yaw, (lidar_depth src dst);
    repeat rewrite ?length_app, ?length_map, ?length_firstn, ?length_skipn;
    cbn [length]; lia.
Qed.

(** [convert_arr] without the yaw vector, on a buffer of any width of at
    least three. *)
Lemma convert_arr_clamped arr src dst with_yaw c :
  wf arr ->
  (3 <= size1 arr)%nat ->
  supported src dst = true ->
  with_yaw && c = false ->
  convert_arr arr src dst None with_yaw c =
  Ok (rowwise arr (size1 arr) (convert_row_clamped src dst with_yaw)).
Proof.
  intros Hwf Hw3 Hsup Hyc.
  pose proof (default_rt_mat_ok src dst) as Hrt.
  destruct (rt_ok_rows _ Hrt) as (m0 & m1 & m2 & Hdata).
  unfold convert_arr, convert_parts, select_branch.
  destruct (supported_cases _ _ Hsup)
    as [[-> ->]|[[-> ->]|[[-> ->]|[[-> ->]|[[-> ->]|[-> ->]]]]]];
    cbn [mode_eq LIDAR CAM DEPTH Z.eqb Pos.eqb andb or_default];
    cbv [default_rt_mat mode_eq LIDAR CAM DEPTH Z.eqb Pos.eqb andb] in Hrt, Hdata;
    unfold branch_yaw, yaw_vector_z, yaw_vector_y, wrap, zeros_like, cat, assemble;
    destruct with_yaw, c; try discriminate Hyc;
    cbn [bind br_rt_mat br_yaw br_yaw_vector br_xyz_size andb fold_left];
    rewrite (transform_xyz_rows arr _ Hwf Hw3 Hrt); cbn [bind];
    rows_norm;
    cbn [bind p_xyz p_xyz_size p_yaw p_remains cat fold_left]; rows_norm.
  all: apply f_equal, rowwise_ext; [lia|].
  all: intros r _; unfold convert_row_clamped, sizes_clamped, row_xyz, fixup,
         lidar_depth, depth_cam;
       cbv [default_rt_mat mode_eq LIDAR CAM DEPTH Z.eqb Pos.eqb andb orb];
       cbn [mat3 data size1 Nat.eqb map firstn skipn Nat.sub];
       rewrite <- ?app_assoc, ?map_map; reflexivity.
Qed.

Lemma select_branch_default arr src dst with_yaw c :
  supported src dst = true ->
  exists br,
    select_branch arr src dst None with_yaw c = Ok br /\
    br_rt_mat br = default_rt_mat src dst /\
    (with_yaw && c = true ->
     exists v, br_yaw_vector br = Some v /\
               size1 v = (3 * size1 (slice_cols 6 7 arr))%nat).
Proof.
  intros Hsup. unfold select_branch, branch_yaw.
  destruct (supported_cases _ _ Hsup)
    as [[-> ->]|[[-> ->]|[[-> ->]|[[-> ->]|[[-> ->]|[-> ->]]]]]];
    cbn [mode_eq LIDAR CAM DEPTH Z.eqb Pos.eqb andb or_default];
    destruct with_yaw, c; eexists; (split; [reflexivity|]);
    (split; [reflexivity|]); cbn [andb]; try discriminate;
    intros _; eexists; (split; [reflexivity|]);
    unfold yaw_vector_z, yaw_vector_y, zeros_like, cat;
    cbn [fold_left hcat tmap size1]; lia.
Qed.

(** X8. What a buffer narrower than a box gets, on a supported pair with
    the default matrix: with fewer than three fields the matrix product
    fails ([RuntimeError]); with three to six fields and
    [with_yaw and correct_yaw] the empty yaw vector fails the product
    ([RuntimeError]); in every other case with at least three fields the
    call succeeds and returns a buffer of the shape of the input, the
    missing fields simply absent. *)
Theorem narrow_buffer_outcome box src dst with_yaw c :
  supported src dst = true ->
  short_sequence box = false ->
  wf (box_tensor box) ->
  ((size1 (box_tensor box) < 3)%nat ->
   convert box src dst None with_yaw c = Raise RuntimeError) /\
  ((3 <= size1 (box_tensor box) < 7)%nat ->
   effective_with_yaw box with_yaw && c = true ->
   convert box src dst None with_yaw c = Raise RuntimeError) /\
  ((3 <= size1 (box_tensor box))%nat ->
   effective_with_yaw box with_yaw && c = false ->
   exists box',
     convert box src dst None with_yaw c = Ok box' /\
     wf (box_tensor box') /\
     size0 (box_tensor box') = size0 (box_tensor box) /\
     size1 (box_tensor box') = size1 (box_tensor box)).
Proof.
  intros Hsup Hs Hwf.
  unfold convert. rewrite (supported_neq _ _ Hsup), (working_copy_long _ Hs).
  cbn [bind]. set (arr := box_tensor box) in *.
  set (y := effective_with_yaw box with_yaw).
  destruct (select_branch_default arr src dst y c Hsup)
    as (br & Hbr & Hm & Hv).
  split; [| split].
  - intros Hw. unfold convert_arr, convert_parts. rewrite Hbr. cbn [bind].
    rewrite Hm. unfold transform_xyz, matmul.
    destruct (rt_ok_rows _ (default_rt_mat_ok src dst)) as (m0 & m1 & m2 & Hd).
    destruct (default_rt_mat_ok src dst) as (_ & H0 & [H1 | H1]).
    2:{ exfalso. revert H1. unfold default_rt_mat.
        repeat match goal with |- context [if ?b then _ else _] => destruct b end;
          discriminate. }
    rewrite H1. cbn [Nat.eqb slice_cols transpose size0 size1]. rewrite H1.
    replace (Nat.min 3 (size1 arr) - Nat.min 0 (size1 arr))%nat
      with (size1 arr) by lia.
    destruct (Nat.eqb_spec (size1 arr) 3); [lia | reflexivity].
  - intros Hw Hyc. unfold convert_arr, convert_parts. rewrite Hbr. cbn [bind].
    rewrite Hm, (transform_xyz_rows arr _ Hwf (proj1 Hw) (default_rt_mat_ok _ _)).
    cbn [bind]. rewrite Hyc. destruct (Hv Hyc) as (v & -> & Hsz).
    unfold corrected_yaw, matmul. rewrite Hsz.
    destruct (default_rt_mat_ok src dst) as (_ & H0 & H1).
    cbn [slice_cols slice_block transpose size0 size1].
    replace (Nat.min 7 (size1 arr) - Nat.min 6 (size1 arr))%nat with 0%nat by lia.
    replace (Nat.min 3 (size1 (default_rt_mat src dst))) with 3%nat by lia.
    reflexivity.
  - intros Hw Hyc.
    rewrite (convert_arr_clamped arr src dst y c Hwf Hw Hsup Hyc). cbn [bind].
    set (out := rowwise arr _ _).
    assert (Hout : wf out).
    { apply rowwise_wf; [assumption|]. intros r Hr.
      destruct Hwf as [_ Hrows]. rewrite Forall_forall in Hrows.
      rewrite convert_row_clamped_length; rewrite (Hrows r Hr); auto. }
    destruct (target_type_known dst (supported_known_dst _ _ Hsup)) as [cl Hcl].
    subst arr.
    destruct box as [l | l | a | t | k hy t]; cbn [restore bind];
      try rewrite Hcl; cbn [bind];
      try (eexists; split; [reflexivity|]; cbn [box_tensor];
           repeat split; solve [apply Hout | reflexivity]).
    all: cbn [short_sequence] in Hs; cbn [box_tensor of_row size1] in Hw;
      eexists; (split; [reflexivity|]);
      assert (Hl : length (convert_row_clamped src dst y l) = length l)
        by (apply convert_row_clamped_length; exact Hw);
      subst out; unfold flatten, rowwise, wf;
      cbn [box_tensor of_row data size0 size1 map concat length];
      rewrite app_nil_r, Hl; repeat split; auto.
Qed.

Lemma narrow_buffer_outcome_witness :
  ((size1 (of_row [1; 2; 3; 4; 5]%R) < 3)%nat ->
   convert (BoxTensor (of_row [1; 2; 3; 4; 5])) LIDAR CAM None true true =
     Raise RuntimeError) /\
  ((3 <= size1 (of_row [1; 2; 3; 4; 5]%R) < 7)%nat ->
   true && true = true ->
   convert (BoxTensor (of_row [1; 2; 3; 4; 5])) LIDAR CAM None true true =
     Raise RuntimeError) /\
  ((3 <= size1 (of_row [1; 2; 3; 4; 5]%R))%nat ->
   true && true = false ->
   exists box',
     convert (BoxTensor (of_row [1; 2; 3; 4; 5])) LIDAR CAM None true true =
       Ok box' /\
     wf (box_tensor box') /\
     size0 (box_tensor box') = 1%nat /\
     size1 (box_tensor box') = 5%nat).
Proof.
  apply (narrow_buffer_outcome (BoxTensor (of_row [1; 2; 3; 4; 5])) LIDAR CAM
           true true).
  - reflexivity.
  - reflexivity.
  - unfold wf. simpl. repeat split; auto.
Defined.

(** ** The shape of [rt_mat] *)

(** The branch with a matrix of the caller is the branch with the default
    matrix, the matrix replaced. *)
Lemma select_branch_some arr src dst m with_yaw c :
  select_branch arr src dst (Some m) with_yaw c =
  br <- select_branch arr src dst None with_yaw c ;;
  Ok (mkBranch m (br_xyz_size br) (br_yaw br) (br_yaw_vector br)).
Proof.
  unfold select_branch, branch_yaw.
  repeat match goal with
         | |- context [if mode_eq ?a ?b && mode_eq ?a' ?b' then _ else _] =>
             destruct (mode_eq a b && mode_eq a' b')
         end; try reflexivity;
    destruct with_yaw, c; reflexivity.
Qed.

Lemma firstn_all_rows n (d : list (list R)) :
  Forall (fun r => length r = n) d -> map (firstn n) d = d.
Proof.
  induction 1 as [| r d Hr _ IH]; cbn [map]; [reflexivity|].
  rewrite IH, <- Hr, firstn_all. reflexivity.
Qed.

Lemma Forall_firstn {A} (P : A -> Prop) n l :
  Forall P l -> Forall P (firstn n l).
Proof.
  intros H. revert n. induction H as [| x l Hx _ IH]; intros [| n];
    cbn [firstn]; constructor; auto.
Qed.

Lemma top_rows_data m :
  wf m -> size1 m = 4%nat ->
  data (slice_block 3 4 m) = firstn 3 (data m).
Proof.
  intros [_ Hrows] H4. unfold slice_block. cbn [data]. rewrite H4 in Hrows.
  apply firstn_all_rows. now apply Forall_firstn.
Qed.

Lemma top_rows_wf m :
  wf m -> size1 m = 4%nat -> wf (slice_block 3 4 m).
Proof.
  intros Hm H4. pose proof (top_rows_data m Hm H4) as Hd.
  destruct Hm as [Hn Hrows]. split.
  - rewrite Hd. unfold slice_block. cbn [size0].
    rewrite length_firstn. lia.
  - rewrite Hd. unfold slice_block. cbn [size1]. rewrite H4 in *.
    now apply Forall_firstn.
Qed.

Lemma top_rows_block m :
  wf m -> size1 m = 4%nat ->
  slice_block 3 3 (slice_block 3 4 m) = slice_block 3 3 m.
Proof.
  intros Hm H4. unfold slice_block at 1 3.
  rewrite (top_rows_data m Hm H4). unfold slice_block. cbn [size0 size1].
  rewrite H4, firstn_firstn. f_equal. lia.
Qed.

(** The centers through a 4x4 matrix are the centers through its first
    three rows. *)
Lemma transform_xyz_top_rows arr m :
  wf m -> size0 m = 4%nat -> size1 m = 4%nat ->
  match transform_xyz arr m, transform_xyz arr (slice_block 3 4 m) with
  | Ok x, Ok x' => slice_cols 0 3 x = slice_cols 0 3 x'
  | Raise e, Raise e' => e = e'
  | _, _ => False
  end.
Proof.
  intros Hm H0 H4. pose proof (top_rows_wf m Hm H4) as Hm'.
  assert (H4' : size1 (slice_block 3 4 m) = 4%nat)
    by (unfold slice_block; cbn [size1]; rewrite H4; reflexivity).
  unfold transform_xyz. rewrite H4, H4'. cbn [Nat.eqb].
  unfold matmul.
  rewrite (columns_transpose m Hm), (columns_transpose _ Hm').
  rewrite (top_rows_data m Hm H4).
  cbn [transpose size0 size1]. rewrite H4, H4'.
  match goal with |- context [if ?b then _ else _] => destruct b end;
    [| reflexivity].
  unfold slice_cols. cbn [size0 size1 data]. rewrite H0.
  f_equal.
  - unfold slice_block. cbn [size0]. rewrite H0. reflexivity.
  - rewrite !map_map. apply map_ext. intros r.
    cbn [skipn Nat.sub]. rewrite firstn_map.
    rewrite (firstn_all2 (n := 3) (map _ (firstn 3 _))); [reflexivity|].
    rewrite length_map, length_firstn. lia.
Qed.

(** X9. A 4x4 homogeneous matrix is accepted, and its last row plays no
    part: the call returns or raises exactly what it does with the first
    three rows of the matrix. *)
Theorem homogeneous_matrix_last_row_ignored box src dst m with_yaw c :
  wf m ->
  size0 m = 4%nat ->
  size1 m = 4%nat ->
  convert box src dst (Some m) with_yaw c =
  convert box src dst (Some (slice_block 3 4 m)) with_yaw c.
Proof.
  intros Hm H0 H4. unfold convert.
  destruct (mode_eq src dst); [reflexivity|].
  destruct (working_copy box) as [arr |]; cbn [bind]; [| reflexivity].
  f_equal. unfold convert_arr. f_equal. unfold convert_parts.
  rewrite !select_branch_some.
  destruct (select_branch arr src dst None _ c) as [br |]; cbn [bind];
    [| reflexivity].
  cbn [br_rt_mat br_yaw br_yaw_vector br_xyz_size].
  pose proof (transform_xyz_top_rows arr m Hm H0 H4) as Hx.
  destruct (transform_xyz arr m) as [x |], (transform_xyz arr (slice_block 3 4 m))
    as [x' |]; try contradiction; cbn [bind]; [| now subst].
  rewrite Hx. unfold corrected_yaw. rewrite (top_rows_block m Hm H4).
  reflexivity.
Qed.

Lemma homogeneous_matrix_last_row_ignored_witness :
  convert (BoxList [1; 2; 3; 4; 5; 6; 0]) LIDAR CAM
          (Some (mkTensor 4 4 [[0; -1; 0; 5]; [0; 0; -1; 6]; [1; 0; 0; 7];
                               [0; 0; 0; 1]])) true true =
  convert (BoxList [1; 2; 3; 4; 5; 6; 0]) LIDAR CAM
          (Some (slice_block 3 4
                   (mkTensor 4 4 [[0; -1; 0; 5]; [0; 0; -1; 6]; [1; 0; 0; 7];
                                  [0; 0; 0; 1]]))) true true.
Proof.
  apply (homogeneous_matrix_last_row_ignored (BoxList [1; 2; 3; 4; 5; 6; 0])
           LIDAR CAM
           (mkTensor 4 4 [[0; -1; 0; 5]; [0; 0; -1; 6]; [1; 0; 0; 7];
                          [0; 0; 0; 1]]) true true).
  - unfold wf. simpl. repeat split; auto.
  - reflexivity.
  - reflexivity.
Defined.

(** X10. A matrix whose number of columns is neither three nor four
    cannot be applied to a center: on a supported pair and a box of at
    least three fields that passes the entry check, the call raises
    [RuntimeError]. *)
Theorem rt_mat_bad_width_raises box src dst m with_yaw c :
  supported src dst = true ->
  short_sequence box = false ->
  (3 <= size1 (box_tensor box))%nat ->
  size1 m <> 3%nat ->
  size1 m <> 4%nat ->
  convert box src dst (Some m) with_yaw c = Raise RuntimeError.
Proof.
  intros Hsup Hs Hw H3 H4.
  unfold convert. rewrite (supported_neq _ _ Hsup), (working_copy_long _ Hs).
  cbn [bind]. unfold convert_arr, convert_parts. rewrite select_branch_some.
  destruct (select_branch_default (box_tensor box) src dst
              (effective_with_yaw box with_yaw) c Hsup) as (br & -> & _).
  cbn [bind br_rt_mat]. unfold transform_xyz, matmul.
  apply Nat.eqb_neq in H4. rewrite H4.
  cbn [slice_cols transpose size0 size1].
  replace (Nat.min 3 (size1 (box_tensor box)) -
           Nat.min 0 (size1 (box_tensor box)))%nat with 3%nat by lia.
  destruct (Nat.eqb_spec 3 (size1 m)); [congruence | reflexivity].
Qed.

Lemma rt_mat_bad_width_raises_witness :
  convert (BoxList [1; 2; 3; 4; 5; 6; 0]) LIDAR CAM
          (Some (mkTensor 3 2 [[0; -1]; [0; 0]; [1; 0]])) true false =
  Raise RuntimeError.
Proof.
  apply (rt_mat_bad_width_raises (BoxList [1; 2; 3; 4; 5; 6; 0]) LIDAR CAM
           (mkTensor 3 2 [[0; -1]; [0; 0]; [1; 0]]) true false).
  - reflexivity.
  - reflexivity.
  - simpl. lia.
  - simpl. lia.
  - simpl. lia.
Defined.

(** * Properties of [load_data_list] *)

Module WaymoFacts.
Import String.
Import List ListNotations.
Import Waymo.
Local Open Scope nat_scope.

(** *** Slices with a step *)

Lemma every_nth {A} (k : nat) (d : A) l :
  1 <= k -> forall i j, nth j (every k i l) d = nth (i + j * k) l d.
Proof.
  intros Hk. induction l as [| x rest IH]; intros i j.
  - cbn [every]. now rewrite !nth_overflow by (cbn [length]; lia).
  - destruct i as [| i']; cbn [every].
    + destruct j as [| j']; [reflexivity|].
      cbn [nth]. rewrite IH.
      replace (0 + S j' * k) with (S (k - 1 + j' * k)) by lia. reflexivity.
    + rewrite IH. reflexivity.
Qed.

Lemma every_length {A} (k : nat) (l : list A) :
  1 <= k -> forall i, i <= k - 1 ->
  length (every k i l) = (length l + (k - 1 - i)) / k.
Proof.
  intros Hk. induction l as [| x rest IH]; intros i Hi.
  - cbn [every length]. symmetry. apply Nat.div_small. lia.
  - destruct i as [| i']; cbn [every length].
    + rewrite IH by lia.
      replace (S (length rest) + (k - 1 - 0)) with (length rest + 1 * k) by lia.
      rewrite Nat.div_add by lia.
      replace (k - 1 - (k - 1)) with 0 by lia. rewrite Nat.add_0_r. lia.
    + rewrite IH by lia. f_equal. lia.
Qed.

(** *** The merge of the meta information *)

Lemma lookup_app k (d e : Dict) :
  lookup k (d ++ e) =
  match lookup k d with Some v => Some v | None => lookup k e end.
Proof.
  induction d as [| [k' v] d IH]; cbn [lookup app]; [reflexivity|].
  destruct (String.eqb k k'); [reflexivity | exact IH].
Qed.

Lemma setdefault_lookup k v key (d : Dict) :
  lookup key (setdefault k v d) =
  match lookup key d with
  | Some w => Some w
  | None => if String.eqb key k then Some v else None
  end.
Proof.
  unfold setdefault, contains.
  destruct (lookup k d) as [w |] eqn:Hk.
  - destruct (lookup key d) eqn:Hkey; [reflexivity|].
    destruct (String.eqb_spec key k); [congruence | reflexivity].
  - rewrite lookup_app. cbn [lookup]. reflexivity.
Qed.

Lemma merge_metainfo_lookup key (file_meta own : Dict) :
  lookup key (merge_metainfo file_meta own) =
  match lookup key own with
  | Some v => Some v
  | None => lookup key file_meta
  end.
Proof.
  unfold merge_metainfo. revert own.
  induction file_meta as [| [k v] rest IH]; intros own; cbn [fold_left lookup].
  - destruct (lookup key own); reflexivity.
  - rewrite IH. cbn [fst snd]. rewrite setdefault_lookup.
    destruct (lookup key own); [reflexivity|].
    destruct (String.eqb key k); reflexivity.
Qed.

Lemma merge_metainfo_extends (file_meta own : Dict) :
  exists added, merge_metainfo file_meta own = (own ++ added)%list.
Proof.
  unfold merge_metainfo. revert own.
  induction file_meta as [| [k v] rest IH]; intros own; cbn [fold_left].
  - exists []. now rewrite app_nil_r.
  - destruct (IH (setdefault k v own)) as [added Ha]. cbn [fst snd].
    rewrite Ha. unfold setdefault. destruct (contains k own).
    + now exists added.
    + exists ((k, v) :: added). now rewrite <- app_assoc.
Qed.

(** A dict that has every key of the file's is left as it is. *)
Lemma merge_metainfo_fixed (file_meta own : Dict) :
  (forall k, contains k file_meta = true -> contains k own = true) ->
  merge_metainfo file_meta own = own.
Proof.
  unfold merge_metainfo. revert own.
  induction file_meta as [| [k v] rest IH]; intros own H; cbn [fold_left];
    [reflexivity|].
  cbn [fst snd].
  assert (Hk : contains k own = true).
  { apply H. unfold contains. cbn [lookup]. now rewrite String.eqb_refl. }
  unfold setdefault at 2. rewrite Hk. apply IH.
  intros k' Hk'. apply H. unfold contains in *. cbn [lookup].
  destruct (String.eqb k' k); [reflexivity | exact Hk'].
Qed.

Lemma merge_metainfo_idempotent (file_meta own : Dict) :
  merge_metainfo file_meta (merge_metainfo file_meta own) =
  merge_metainfo file_meta own.
Proof.
  apply merge_metainfo_fixed. intros k. unfold contains.
  rewrite merge_metainfo_lookup.
  destruct (lookup k own); [reflexivity|]. tauto.
Qed.

(** *** The loop over the raw items *)

Section Load.

Variable Other : Type.
Variable parse_data_info : Dataset Other -> PyVal -> outcome PyVal.

Lemma collect_returns self raw acc :
  Forall (fun x => entries_of (parse_data_info self x) <> None) raw ->
  collect Other parse_data_info self raw acc =
  Returns (acc ++ flat_map (fun x => entries_or_nil (parse_data_info self x)) raw).
Proof.
  intros H. revert acc.
  induction H as [| x rest Hx _ IH]; intros acc; cbn [collect flat_map].
  - now rewrite app_nil_r.
  - unfold entries_or_nil, entries_of in *.
    destruct (parse_data_info self x) as [[| | | | items | d] | e];
      try congruence.
    + destruct (forallb is_dict items); [| congruence].
      rewrite IH, app_assoc. reflexivity.
    + rewrite IH, <- app_assoc. reflexivity.
Qed.

Lemma collect_raises self raw acc :
  Exists (fun x => entries_of (parse_data_info self x) = None) raw ->
  exists e, collect Other parse_data_info self raw acc = Raises e.
Proof.
  intros H. revert acc.
  induction H as [x rest Hx | x rest _ IH]; intros acc; cbn [collect].
  - unfold entries_of in Hx.
    destruct (parse_data_info self x) as [[| | | | items | d] | e];
      try (eexists; reflexivity); try discriminate.
    destruct (forallb is_dict items); [discriminate | eexists; reflexivity].
  - destruct (parse_data_info self x) as [[| | | | items | d] | e];
      try (eexists; reflexivity); try apply IH.
    destruct (forallb is_dict items); [apply IH | eexists; reflexivity].
Qed.

Lemma load_well_formed self ann raw file_meta :
  annotation_of ann raw file_meta ->
  (1 <= load_interval self)%Z ->
  load_data_list Other parse_data_info self (PDict ann) =
  (collect Other parse_data_info (merged self file_meta) (selected self raw) [],
   merged self file_meta,
   if (1 <? load_interval self)%Z
   then [SampleSizeReduced (load_interval self)] else []).
Proof.
  intros [Hd Hm] Hk. unfold load_data_list, contains. rewrite Hd, Hm.
  cbn [negb orb step_items]. unfold slice_step.
  destruct (Z.eqb_spec (load_interval self) 0); [lia|].
  destruct (Z.ltb_spec 0 (load_interval self)); [| lia].
  reflexivity.
Qed.

(** X11. On an annotation dict of the documented form and a positive
    [load_interval], only every [load_interval]-th raw item, from the
    first, is parsed, on the dataset as the merge of the meta information
    left it.  If each of them parses to a dict or a list of dicts, the
    result is what they gave, in order, the lists flattened; if one does
    not, the call raises and returns no list. *)
Theorem load_data_list_collects self ann raw file_meta :
  annotation_of ann raw file_meta ->
  (1 <= load_interval self)%Z ->
  (Forall (fun x => entries_of (parse_data_info (merged self file_meta) x)
                    <> None) (selected self raw) ->
   fst (fst (load_data_list Other parse_data_info self (PDict ann))) =
   Returns (flat_map
              (fun x => entries_or_nil
                          (parse_data_info (merged self file_meta) x))
              (selected self raw))) /\
  (Exists (fun x => entries_of (parse_data_info (merged self file_meta) x)
                    = None) (selected self raw) ->
   exists e, fst (fst (load_data_list Other parse_data_info self (PDict ann))) = Raises e).
Proof.
  intros Hann Hk. rewrite (load_well_formed _ _ _ _ Hann Hk). cbn [fst].
  split; intros H.
  - now rewrite collect_returns.
  - now apply collect_raises.
Qed.

Lemma stride_bound n k i : 1 <= k -> i < (n + (k - 1)) / k -> i * k < n.
Proof.
  intros Hk Hi.
  pose proof (Nat.Div0.mul_div_le (n + (k - 1)) k) as H.
  assert (k * S i <= k * ((n + (k - 1)) / k)) by (apply Nat.mul_le_mono_l; lia).
  nia.
Qed.

(** X12. With a positive [load_interval] k and raw items that each parse
    to one dict, a list of n raw items gives ceil(n / k) samples, and
    sample number i is the parse of raw item number i * k. *)
Theorem load_data_list_stride self ann raw file_meta :
  annotation_of ann raw file_meta ->
  (1 <= load_interval self)%Z ->
  (forall x, In x raw ->
     exists d, parse_data_info (merged self file_meta) x = Returns (PDict d)) ->
  exists data,
    fst (fst (load_data_list Other parse_data_info self (PDict ann))) = Returns data /\
    length data =
      (length raw + (Z.to_nat (load_interval self) - 1)) /
      Z.to_nat (load_interval self) /\
    forall i, i < length data ->
      parse_data_info (merged self file_meta)
                      (nth (i * Z.to_nat (load_interval self)) raw PNone) =
      Returns (nth i data PNone).
Proof.
  intros Hann Hk Hparse.
  rewrite (load_well_formed _ _ _ _ Hann Hk). cbn [fst].
  set (k := Z.to_nat (load_interval self)).
  assert (Hk' : 1 <= k) by (unfold k; lia).
  set (self' := merged self file_meta) in *.
  set (value := fun x => match parse_data_info self' x with
                         | Returns v => v
                         | Raises _ => PNone
                         end).
  assert (Hsel : forall j, j * k < length raw ->
            nth j (selected self raw) PNone = nth (j * k) raw PNone).
  { intros j _. unfold selected. fold k. now rewrite every_nth. }
  assert (Hlen : length (selected self raw) = (length raw + (k - 1)) / k).
  { unfold selected. fold k. rewrite every_length by lia. f_equal. lia. }
  assert (Hin : forall x, In x (selected self raw) -> In x raw).
  { intros x Hx. destruct (In_nth _ _ PNone Hx) as (j & Hj & <-).
    rewrite Hlen in Hj. pose proof (stride_bound _ _ _ Hk' Hj) as Hb.
    rewrite Hsel by assumption. now apply nth_In. }
  rewrite collect_returns.
  2:{ apply Forall_forall. intros x Hx.
      destruct (Hparse x (Hin x Hx)) as [d ->]. discriminate. }
  cbn [app].
  assert (Hflat : flat_map (fun x => entries_or_nil (parse_data_info self' x))
                           (selected self raw) =
                  map value (selected self raw)).
  { rewrite flat_map_concat_map.
    assert (E : map (fun x => entries_or_nil (parse_data_info self' x))
                    (selected self raw) =
                map (fun x => [value x]) (selected self raw)).
    { apply map_ext_in. intros x Hx. unfold value.
      destruct (Hparse x (Hin x Hx)) as [d ->]. reflexivity. }
    rewrite E. clear. induction (selected self raw) as [| x l IH];
      cbn [map concat app]; [reflexivity | now rewrite IH]. }
  rewrite Hflat. eexists. split; [reflexivity|].
  rewrite length_map. split; [exact Hlen|].
  intros i Hi. rewrite Hlen in Hi.
  pose proof (stride_bound _ _ _ Hk' Hi) as Hb.
  rewrite (nth_indep (map value (selected self raw)) PNone (value PNone))
    by (now rewrite length_map, Hlen).
  rewrite map_nth, Hsel by assumption. unfold value.
  destruct (Hparse (nth (i * k) raw PNone)) as [d ->]; [now apply nth_In|].
  reflexivity.
Qed.

(** X13. The statements of [load_data_list] itself (the checks, the
    slice and the [setdefault] loop) never change, remove or reorder an
    entry the meta information of the dataset already had: whatever the
    annotations are and on every path, also the failing ones, what they
    leave is the old meta information with entries added after it.  What
    [parse_data_info] may write is not part of the statement. *)
Theorem load_data_list_keeps_metainfo self annotations :
  exists added,
    metainfo (snd (fst (load_data_list Other parse_data_info self
                                       annotations))) =
    metainfo self ++ added.
Proof.
  assert (Hsame : exists added : Dict, metainfo self = metainfo self ++ added)
    by (exists []; now rewrite app_nil_r).
  unfold load_data_list.
  destruct annotations as [| | | | | ann]; cbn [fst snd]; auto.
  destruct (negb _ || negb _); cbn [fst snd]; auto.
  destruct (lookup "metainfo" ann) as [fm |]; cbn [fst snd]; auto.
  destruct (lookup "data_list" ann) as [raw |]; cbn [fst snd]; auto.
  destruct (step_items _ raw); cbn [fst snd]; auto.
  destruct fm; cbn [fst snd metainfo load_interval other]; auto.
  repeat split. apply merge_metainfo_extends.
Qed.

(** X14. Once the annotations have the documented form and
    [load_interval] is not 0, the meta information is merged whether or
    not the items parse: a key the dataset had keeps its value, a key it
    lacked takes the value of the file; and loading the same annotations
    again changes nothing more. *)
Theorem load_data_list_merges_metainfo self ann raw file_meta :
  annotation_of ann raw file_meta ->
  load_interval self <> 0%Z ->
  let once := snd (fst (load_data_list Other parse_data_info self (PDict ann))) in
  let twice := snd (fst (load_data_list Other parse_data_info once (PDict ann))) in
  (forall key,
     lookup key (metainfo once) =
     match lookup key (metainfo self) with
     | Some v => Some v
     | None => lookup key file_meta
     end) /\
  metainfo twice = metainfo once.
Proof.
  intros [Hd Hm] Hk.
  assert (Hload : forall s, load_interval s = load_interval self ->
            snd (fst (load_data_list Other parse_data_info s (PDict ann))) = merged s file_meta).
  { intros s Hs. unfold load_data_list, contains. rewrite Hd, Hm.
    cbn [negb orb step_items]. unfold slice_step.
    destruct (Z.eqb_spec (load_interval s) 0); [congruence|].
    destruct (0 <? load_interval s)%Z; reflexivity. }
  cbv zeta. rewrite (Hload self eq_refl).
  rewrite (Hload (merged self file_meta) eq_refl).
  unfold merged. cbn [metainfo]. split.
  - intros key. apply merge_metainfo_lookup.
  - apply merge_metainfo_idempotent.
Qed.

(** X15. What is refused before anything is done: annotations that are
    not a dict raise [TypeError], a dict without [data_list] or without
    [metainfo] raises [ValueError], and so does a [load_interval] of 0 on
    a list of raw items (a slice step cannot be zero); in each case the
    dataset is left as it was and nothing is logged. *)
Theorem load_data_list_rejects self annotations :
  (is_dict annotations = false ->
   load_data_list Other parse_data_info self annotations = (Raises TypeError, self, [])) /\
  (forall ann,
     annotations = PDict ann ->
     contains "data_list" ann && contains "metainfo" ann = false ->
     load_data_list Other parse_data_info self annotations = (Raises ValueError, self, [])) /\
  (forall ann raw file_meta,
     annotations = PDict ann ->
     annotation_of ann raw file_meta ->
     load_interval self = 0%Z ->
     load_data_list Other parse_data_info self annotations = (Raises ValueError, self, [])).
Proof.
  repeat split.
  - destruct annotations; try reflexivity. discriminate.
  - intros ann -> H. unfold load_data_list.
    apply andb_false_iff in H. destruct H as [-> | ->];
      cbn [negb orb]; rewrite ?orb_true_r; reflexivity.
  - intros ann raw fm -> [Hd Hm] Hk. unfold load_data_list, contains.
    rewrite Hd, Hm. cbn [negb orb step_items]. unfold slice_step.
    rewrite Hk. reflexivity.
Qed.

End Load.

Lemma load_data_list_collects_witness :
  fst (fst (load_data_list unit (fun _ x => Returns x) (mkDataset 2 [] tt)
     (PDict [("metainfo"%string, PDict [("version"%string, PStr "1.4")]);
             ("data_list"%string,
              PList [PDict [("sample_idx"%string, PInt 0)];
                     PDict [("sample_idx"%string, PInt 1)];
                     PList [PDict [("sample_idx"%string, PInt 2)];
                            PDict [("sample_idx"%string, PInt 3)]]])]))) =
  Returns [PDict [("sample_idx"%string, PInt 0)];
           PDict [("sample_idx"%string, PInt 2)];
           PDict [("sample_idx"%string, PInt 3)]] /\
  exists e,
    fst (fst (load_data_list unit (fun _ x => Returns x) (mkDataset 1 [] tt)
       (PDict [("metainfo"%string, PDict []);
               ("data_list"%string,
                PList [PDict [("sample_idx"%string, PInt 0)]; PInt 7])]))) =
    Raises e.
Proof.
  split.
  - pose (raw := [PDict [("sample_idx"%string, PInt 0)];
                  PDict [("sample_idx"%string, PInt 1)];
                  PList [PDict [("sample_idx"%string, PInt 2)];
                         PDict [("sample_idx"%string, PInt 3)]]]).
    pose (file_meta := [("version"%string, PStr "1.4")]).
    apply (proj1 (load_data_list_collects unit (fun _ x => Returns x)
                    (mkDataset 2 [] tt)
                    [("metainfo"%string, PDict file_meta); ("data_list"%string, PList raw)]
                    raw file_meta (conj eq_refl eq_refl) ltac:(cbn; lia))).
    repeat constructor; discriminate.
  - pose (raw := [PDict [("sample_idx"%string, PInt 0)]; PInt 7]).
    apply (proj2 (load_data_list_collects unit (fun _ x => Returns x)
                    (mkDataset 1 [] tt)
                    [("metainfo"%string, PDict []); ("data_list"%string, PList raw)]
                    raw [] (conj eq_refl eq_refl) ltac:(cbn; lia))).
    apply Exists_cons_tl, Exists_cons_hd. reflexivity.
Defined.

Lemma load_data_list_stride_witness :
  exists data,
    fst (fst (load_data_list unit (fun _ x => Returns x) (mkDataset 2 [] tt)
       (PDict [("metainfo"%string, PDict []);
               ("data_list"%string,
                PList [PDict [("sample_idx"%string, PInt 0)];
                       PDict [("sample_idx"%string, PInt 1)];
                       PDict [("sample_idx"%string, PInt 2)];
                       PDict [("sample_idx"%string, PInt 3)];
                       PDict [("sample_idx"%string, PInt 4)]])]))) =
    Returns data /\
    length data = 3 /\
    nth 2 data PNone = PDict [("sample_idx"%string, PInt 4)].
Proof.
  pose (raw := [PDict [("sample_idx"%string, PInt 0)];
                PDict [("sample_idx"%string, PInt 1)];
                PDict [("sample_idx"%string, PInt 2)];
                PDict [("sample_idx"%string, PInt 3)];
                PDict [("sample_idx"%string, PInt 4)]]).
  destruct (load_data_list_stride unit (fun _ x => Returns x)
              (mkDataset 2 [] tt)
              [("metainfo"%string, PDict []); ("data_list"%string, PList raw)]
              raw [] (conj eq_refl eq_refl) ltac:(cbn; lia))
    as (data & Hdata & Hlen & Hnth).
  - intros x Hx. cbn [In raw] in Hx.
    repeat (destruct Hx as [<- | Hx]; [eexists; reflexivity |]).
    contradiction.
  - exists data. split; [exact Hdata|]. split; [exact Hlen|].
    assert (H2 : 2 < length data) by (rewrite Hlen; vm_compute; lia).
    specialize (Hnth 2 H2). vm_compute in Hnth. injection Hnth as Hn.
    symmetry. exact Hn.
Defined.

Lemma load_data_list_merges_metainfo_witness :
  let self := mkDataset 1 [("classes"%string, PList [PStr "Car"])] tt in
  let annotations :=
    PDict [("metainfo"%string,
            PDict [("classes"%string, PList [PStr "Pedestrian"]);
                   ("version"%string, PStr "1.4")]);
           ("data_list"%string, PList [PInt 7])] in
  let parse := fun (_ : Dataset unit) (_ : PyVal) =>
                 Raises KeyError : outcome PyVal in
  let once := snd (fst (load_data_list unit parse self annotations)) in
  let twice := snd (fst (load_data_list unit parse once annotations)) in
  fst (fst (load_data_list unit parse self annotations)) = Raises KeyError /\
  lookup "classes" (metainfo once) = Some (PList [PStr "Car"]) /\
  lookup "version" (metainfo once) = Some (PStr "1.4") /\
  metainfo twice = metainfo once.
Proof.
  intros self annotations parse once twice.
  pose (file_meta := [("classes"%string, PList [PStr "Pedestrian"]);
                      ("version"%string, PStr "1.4")]).
  destruct (load_data_list_merges_metainfo unit parse self
              [("metainfo"%string, PDict file_meta); ("data_list"%string, PList [PInt 7])]
              [PInt 7] file_meta
              (conj eq_refl eq_refl) ltac:(discriminate))
    as [Hlookup Htwice].
  split; [reflexivity|].
  split; [exact (Hlookup "classes"%string)|].
  split; [exact (Hlookup "version"%string)|].
  exact Htwice.
Defined.

End WaymoFacts.

(** * Properties of the interpolation weights *)

Module PointFPFacts.
Import PointFP.

Lemma eps_pos : 0 < eps.
Proof. unfold eps. lra. Qed.

Lemma reciprocal_pos d : 0 <= d -> 0 < 1 / (d + eps).
Proof.
  intros Hd. pose proof eps_pos. apply Rdiv_lt_0_compat; lra.
Qed.

Lemma sum_nonneg l : Forall (fun r => 0 < r) l -> 0 <= sum l.
Proof.
  induction 1 as [| r l Hr _ IH]; cbn [sum fold_right]; [lra|].
  fold (sum l). lra.
Qed.

Lemma dist_reciprocal_pos dist :
  Forall (fun d => 0 <= d) dist -> Forall (fun r => 0 < r) (dist_reciprocal dist).
Proof.
  intros H. unfold dist_reciprocal. apply Forall_map.
  eapply Forall_impl; [| exact H]. intros d Hd. now apply reciprocal_pos.
Qed.

Lemma norm_pos dist :
  Forall (fun d => 0 <= d) dist -> dist <> [] -> 0 < norm dist.
Proof.
  intros H Hne. destruct dist as [| d rest]; [congruence|].
  inversion H as [| ? ? Hd Hrest]; subst.
  unfold norm. cbn [dist_reciprocal map sum fold_right].
  pose proof (reciprocal_pos d Hd).
  pose proof (sum_nonneg _ (dist_reciprocal_pos rest Hrest)) as Hs.
  unfold dist_reciprocal, sum in Hs. lra.
Qed.

Lemma sum_scaled c l : sum (map (fun r => r / c) l) = sum l / c.
Proof.
  induction l as [| r l IH]; cbn [map sum fold_right].
  - unfold Rdiv. ring.
  - fold (sum (map (fun r => r / c) l)). fold (sum l). rewrite IH.
    unfold Rdiv. ring.
Qed.

Lemma sum_member_le l r :
  Forall (fun r => 0 < r) l -> In r l -> r <= sum l.
Proof.
  induction 1 as [| x l Hx Hl IH]; intros Hin; [contradiction|].
  cbn [sum fold_right]. fold (sum l).
  pose proof (sum_nonneg l Hl).
  destruct Hin as [-> | Hin]; [lra|].
  specialize (IH Hin). lra.
Qed.

(** X16. At a target point whose neighbours are at distances that are not
    negative, the interpolation weights are positive, none exceeds 1, and
    they sum to 1: the interpolated feature is a convex combination of
    the neighbours' features, also when a distance is 0. *)
Theorem weights_are_convex (dist : list R) :
  Forall (fun d => 0 <= d) dist ->
  dist <> [] ->
  length (weight dist) = length dist /\
  Forall (fun w => 0 < w <= 1) (weight dist) /\
  sum (weight dist) = 1.
Proof.
  intros Hd Hne.
  pose proof (norm_pos dist Hd Hne) as Hn.
  pose proof (dist_reciprocal_pos dist Hd) as Hr.
  repeat split.
  - unfold weight, dist_reciprocal. now rewrite !length_map.
  - unfold weight. apply Forall_map, Forall_forall. intros r Hin.
    pose proof (proj1 (Forall_forall _ _) Hr r Hin) as Hpos.
    pose proof (sum_member_le _ r Hr Hin) as Hle. fold (norm dist) in Hle.
    split.
    + now apply Rdiv_lt_0_compat.
    + apply Rmult_le_reg_r with (norm dist); [assumption|].
      unfold Rdiv. rewrite Rmult_assoc, Rinv_l by lra. lra.
  - unfold weight. rewrite sum_scaled. fold (norm dist).
    unfold Rdiv. apply Rinv_r. lra.
Qed.

Lemma weights_are_convex_witness :
  length (weight [0; 1; 3]) = 3%nat /\
  Forall (fun w => 0 < w <= 1) (weight [0; 1; 3]) /\
  sum (weight [0; 1; 3]) = 1.
Proof.
  apply (weights_are_convex [0; 1; 3]).
  - repeat constructor; lra.
  - discriminate.
Defined.

(** X17. Of two neighbours of a target point the nearer one never gets
    the smaller weight, and equal distances get equal weights. *)
Theorem nearer_neighbour_weighs_more (dist : list R) (i j : nat) :
  Forall (fun d => 0 <= d) dist ->
  (i < length dist)%nat ->
  (j < length dist)%nat ->
  nth i dist 0 <= nth j dist 0 ->
  nth j (weight dist) 0 <= nth i (weight dist) 0.
Proof.
  intros Hd Hi Hj Hle.
  assert (Hne : dist <> []) by (destruct dist; [cbn in Hi; lia | discriminate]).
  pose proof (norm_pos dist Hd Hne) as Hn.
  assert (Hnth : forall k, (k < length dist)%nat ->
            nth k (weight dist) 0 = 1 / (nth k dist 0 + eps) / norm dist).
  { intros k Hk. unfold weight, dist_reciprocal. rewrite map_map.
    rewrite (nth_indep _ 0 ((fun d => 1 / (d + eps) / norm dist) 0))
      by (now rewrite length_map).
    exact (map_nth (fun d => 1 / (d + eps) / norm dist) dist 0 k). }
  rewrite (Hnth i Hi), (Hnth j Hj).
  assert (Hdi : 0 <= nth i dist 0)
    by (apply (proj1 (Forall_forall _ _) Hd), nth_In, Hi).
  assert (Hdj : 0 <= nth j dist 0)
    by (apply (proj1 (Forall_forall _ _) Hd), nth_In, Hj).
  pose proof eps_pos.
  unfold Rdiv. rewrite !Rmult_1_l.
  apply Rmult_le_compat_r; [left; now apply Rinv_0_lt_compat|].
  apply Rinv_le_contravar; lra.
Qed.

Lemma nearer_neighbour_weighs_more_witness :
  nth 2 (weight [0; 1; 3]) 0 <= nth 0 (weight [0; 1; 3]) 0.
Proof.
  apply (nearer_neighbour_weighs_more [0; 1; 3] 0 2).
  - repeat constructor; lra.
  - cbn; lia.
  - cbn; lia.
  - cbn. lra.
Defined.

End PointFPFacts.
